(** * ArticleService: a shallow embedding of the article orchestration service

    The development follows [src/api/services/ArticleService.ts].  The
    service is a sequence of calls to collaborators (the article
    repository, the author service, the Drive adapter, the WordPress
    adapter, the event dispatcher, the uuid generator).  Each [async]
    method becomes a function in a state-and-exception monad over a
    [World]: the relational tables, the chronological trace of what the
    service did to its collaborators, and the answers the collaborators
    are going to give (a stub script, as in a test double). *)

From stdpp Require Import gmap strings list fin_maps.
From Stdlib Require Import ZArith.

Local Open Scope string_scope.
Local Open Scope list_scope.

(** ** Data model *)

(** [models/enums] is not among the sources; [Author.ts] only shows that
    the author constructor sets [Levels.AUTHOR]. *)
Inductive Levels := AUTHOR | EDITOR | ADMIN.

(** [models/dto/AuthorDTO.ts]: five exposed properties.  A property of a
    plain object may be absent, hence [option]. *)
Record AuthorDTO := {
  dto_name : option string;
  dto_email : option string;
  dto_school : option string;
  dto_biography : option string;
  dto_country : option string;
}.

(** [models/Author.ts], with the identity fields it inherits from [User].
    The [articles] back reference is not represented. *)
Record Author := {
  author_id : option string;
  author_name : option string;
  author_email : option string;
  author_level : Levels;
  school : option string;
  biography : option string;
  country : option string;
  teacher : option string;
  profile : option string;
}.

(** [models/Editor.ts] is not among the sources; [assign] reads [id]. *)
Record Editor := {
  editor_id : string;
  editor_name : string;
  editor_email : string;
}.

(** The fields of [models/Article.ts] that the service reads or writes. *)
Record Article := {
  article_id : option string;
  title : string;
  folderId : option string;
  docId : option string;
  markingGridId : option string;
  wordpressId : option Z;
  authors : list Author;
  editors : list Editor;
}.

(** [models/dto/ArticleDTO.ts] is not among the sources.  The service
    reads [title] and [authors]; [dto_id] stands for an identifier the
    submitted object may carry, which [plainToClass] copies as is. *)
Record ArticleDTO := {
  dto_id : option string;
  dto_title : string;
  dto_authors : list AuthorDTO;
}.

(** [Express.Multer.File]: the service reads [mimetype] and hands the
    file to the Drive adapter. *)
Record MulterFile := {
  originalname : string;
  mimetype : string;
}.

(** class-validator's [ValidationError]. *)
#[warnings="-register-all"]
Inductive ValidationError :=
  MkValidationError (property : string)
                    (constraints : list (string * string))
                    (children : list ValidationError).

(** The response of the WordPress adapter; the service reads [id]. *)
Record WordpressPost := { wp_id : Z }.

(** [lib/copyright/Analyser]: the service reads [articleId]. *)
Record AnalysisResult := { articleId : string }.

(** [controllers/responses/ArticlePublishResponse]. *)
Record ArticlePublishResponse := {
  resp_article : Article;
  resp_wordpress : WordpressPost;
}.

(** Configuration and declarations the service imports but that are not
    among the sources. *)
Record Env := {
  (** [ALLOWED_FORMATS] of [models/dto/ArticleDTO]. *)
  ALLOWED_FORMATS : list string;
  (** [env.google.parent] and [env.google.marking_grid]. *)
  google_parent : string;
  google_marking_grid : string;
  (** The constraint violations that class-validator reports for an
      [ArticleDTO] (its annotations are not among the sources). *)
  articleDtoErrors : ArticleDTO → list ValidationError;
}.

(** ** Collaborators *)

Inductive Reply (A : Type) :=
  | Ok (a : A)
  | Failed (reason : string).
Arguments Ok {A} a.
Arguments Failed {A} reason.

(** Requests to [lib/google/Drive]. *)
Inductive DriveCall :=
  | createFolder (name parentId : string)
  | createFile (name : string) (file : MulterFile) (mimeType parentId : string)
  | copy (source dest name : string)
  | shareFile (id role : string) (email : option string).

(** Requests to [lib/wordpress].  [publish] passes whatever the lookup
    returned, which may be [undefined]. *)
Inductive WordpressCall :=
  | publishArticle (article : option Article)
  | getArticle (article : Article).

(** Payloads of [events.article.created] and [events.article.assigned]. *)
Inductive Event :=
  | article_created (article : Article)
  | article_assigned (article : Article) (editor : Editor).

(** What the service did, in the order in which it did it.  An awaited
    call is recorded with the answer it got; a call whose promise is
    dropped is recorded without one. *)
Inductive Effect :=
  | LogInfo (message : string)
  | ConsoleLog (message : string)
  | DriveAwaited (call : DriveCall) (reply : Reply string)
  | DriveDetached (call : DriveCall)
  | WordpressAwaited (call : WordpressCall) (reply : Reply WordpressPost)
  | RepositorySave (article : Article) (saved : bool)
  | RepositoryDelete (id : string)
  | Dispatched (event : Event).

Record World := {
  (** the article table, keyed by primary key *)
  articleTable : gmap string Article;
  (** the author table *)
  authorTable : list Author;
  trace : list Effect;
  (** rejections of promises that nobody awaits *)
  unhandled : list string;
  (** what the collaborators answer, call after call *)
  driveReplies : list (Reply string);
  shareReplies : list (Reply unit);
  wordpressReplies : list (Reply WordpressPost);
  saveReplies : list (Reply unit);
  (** the identifiers [uuid.v4()] produces, and how many were drawn *)
  uuidSource : nat → string;
  uuidDrawn : nat;
}.

(** Primary keys: a row is stored under its own identifier. *)
Definition table_wf (t : gmap string Article) : Prop :=
  ∀ k a, t !! k = Some a → article_id a = Some k.

(** ** Exceptions and the monad of [async] methods *)

(** What a method can throw: [new Error(message)], a thrown array of
    validation errors, the engine's [TypeError] for an access to
    [property] of [undefined], and the rejection of an awaited promise. *)
Inductive Exn :=
  | Error (message : string)
  | ValidationErrors (errors : list ValidationError)
  | TypeError (property : string)
  | Rejection (reason : string).

Inductive Outcome (A : Type) :=
  | Returned (a : A)
  | Thrown (e : Exn).
Arguments Returned {A} a.
Arguments Thrown {A} e.

Definition Async (A : Type) : Type := World → Outcome A * World.

Definition ret {A} (a : A) : Async A := λ w, (Returned a, w).
Definition throw {A} (e : Exn) : Async A := λ w, (Thrown e, w).
Definition bind {A B} (m : Async A) (k : A → Async B) : Async B :=
  λ w, match m w with
       | (Returned a, w') => k a w'
       | (Thrown e, w') => (Thrown e, w')
       end.

Declare Scope async_scope.
Delimit Scope async_scope with async.
Notation "'await' x ← m ; k" := (bind m (λ x, k))
  (at level 100, x name, m at level 99, k at level 200,
   right associativity, format "'[v' 'await'  x  ←  m ; '/' k ']'") : async_scope.
Notation "m ;; k" := (bind m (λ _, k))
  (at level 100, k at level 200, right associativity) : async_scope.
Local Open Scope async_scope.

Definition gets {A} (f : World → A) : Async A := λ w, (Returned (f w), w).
Definition modify (f : World → World) : Async unit := λ w, (Returned tt, f w).

(** *** Field updates of the world *)

Definition emit (e : Effect) (w : World) : World :=
  {| articleTable := articleTable w; authorTable := authorTable w;
     trace := trace w ++ [e]; unhandled := unhandled w;
     driveReplies := driveReplies w; shareReplies := shareReplies w;
     wordpressReplies := wordpressReplies w; saveReplies := saveReplies w;
     uuidSource := uuidSource w; uuidDrawn := uuidDrawn w |}.

Definition set_articleTable (t : gmap string Article) (w : World) : World :=
  {| articleTable := t; authorTable := authorTable w;
     trace := trace w; unhandled := unhandled w;
     driveReplies := driveReplies w; shareReplies := shareReplies w;
     wordpressReplies := wordpressReplies w; saveReplies := saveReplies w;
     uuidSource := uuidSource w; uuidDrawn := uuidDrawn w |}.

Definition add_unhandled (reason : string) (w : World) : World :=
  {| articleTable := articleTable w; authorTable := authorTable w;
     trace := trace w; unhandled := unhandled w ++ [reason];
     driveReplies := driveReplies w; shareReplies := shareReplies w;
     wordpressReplies := wordpressReplies w; saveReplies := saveReplies w;
     uuidSource := uuidSource w; uuidDrawn := uuidDrawn w |}.

Definition set_driveReplies (l : list (Reply string)) (w : World) : World :=
  {| articleTable := articleTable w; authorTable := authorTable w;
     trace := trace w; unhandled := unhandled w;
     driveReplies := l; shareReplies := shareReplies w;
     wordpressReplies := wordpressReplies w; saveReplies := saveReplies w;
     uuidSource := uuidSource w; uuidDrawn := uuidDrawn w |}.

Definition set_shareReplies (l : list (Reply unit)) (w : World) : World :=
  {| articleTable := articleTable w; authorTable := authorTable w;
     trace := trace w; unhandled := unhandled w;
     driveReplies := driveReplies w; shareReplies := l;
     wordpressReplies := wordpressReplies w; saveReplies := saveReplies w;
     uuidSource := uuidSource w; uuidDrawn := uuidDrawn w |}.

Definition set_wordpressReplies (l : list (Reply WordpressPost)) (w : World) : World :=
  {| articleTable := articleTable w; authorTable := authorTable w;
     trace := trace w; unhandled := unhandled w;
     driveReplies := driveReplies w; shareReplies := shareReplies w;
     wordpressReplies := l; saveReplies := saveReplies w;
     uuidSource := uuidSource w; uuidDrawn := uuidDrawn w |}.

Definition set_saveReplies (l : list (Reply unit)) (w : World) : World :=
  {| articleTable := articleTable w; authorTable := authorTable w;
     trace := trace w; unhandled := unhandled w;
     driveReplies := driveReplies w; shareReplies := shareReplies w;
     wordpressReplies := wordpressReplies w; saveReplies := l;
     uuidSource := uuidSource w; uuidDrawn := uuidDrawn w |}.

Definition set_uuidDrawn (n : nat) (w : World) : World :=
  {| articleTable := articleTable w; authorTable := authorTable w;
     trace := trace w; unhandled := unhandled w;
     driveReplies := driveReplies w; shareReplies := shareReplies w;
     wordpressReplies := wordpressReplies w; saveReplies := saveReplies w;
     uuidSource := uuidSource w; uuidDrawn := n |}.

(** The next scripted answer; a collaborator whose script is exhausted
    is unreachable. *)
Definition next_reply {A} (l : list (Reply A)) : Reply A * list (Reply A) :=
  match l with
  | r :: l' => (r, l')
  | [] => (Failed "unreachable", [])
  end.

(** *** Primitive calls *)

Definition log_info (message : string) : Async unit :=
  modify (emit (LogInfo message)).

Definition console_log (message : string) : Async unit :=
  modify (emit (ConsoleLog message)).

(** [eventDispatcher.dispatch(name, payload)]. *)
Definition dispatch (ev : Event) : Async unit :=
  modify (emit (Dispatched ev)).

(** An awaited call to the Drive adapter: its rejection is thrown. *)
Definition driveService (call : DriveCall) : Async string :=
  λ w, let '(r, rest) := next_reply (driveReplies w) in
       let w' := emit (DriveAwaited call r) (set_driveReplies rest w) in
       match r with
       | Ok id => (Returned id, w')
       | Failed reason => (Thrown (Rejection reason), w')
       end.

(** A call to the Drive adapter whose promise is dropped: the caller
    goes on whatever the answer; a rejection stays unhandled. *)
Definition driveService_detached (call : DriveCall) : Async unit :=
  λ w, let '(r, rest) := next_reply (shareReplies w) in
       let w' := emit (DriveDetached call) (set_shareReplies rest w) in
       match r with
       | Ok _ => (Returned tt, w')
       | Failed reason => (Returned tt, add_unhandled reason w')
       end.

(** An awaited call to the WordPress adapter. *)
Definition wordpressService (call : WordpressCall) : Async WordpressPost :=
  λ w, let '(r, rest) := next_reply (wordpressReplies w) in
       let w' := emit (WordpressAwaited call r) (set_wordpressReplies rest w) in
       match r with
       | Ok post => (Returned post, w')
       | Failed reason => (Thrown (Rejection reason), w')
       end.

(** [uuid.v4()]. *)
Definition uuid_v4 : Async string :=
  λ w, (Returned (uuidSource w (uuidDrawn w)), set_uuidDrawn (S (uuidDrawn w)) w).

(** *** The article repository

    [repositories/ArticleRepository] is not among the sources; it is
    the standard repository of §6 of the specification: find by
    identifier, save (insert or update under the primary key), delete.
    Loading of relations is not distinguished: a lookup returns the
    stored row with its authors and editors. *)

Definition articleRepository_findOne (id : string) : Async (option Article) :=
  gets (λ w, articleTable w !! id).

(** What one [save] does to the world, and whether it went through.
    The row of the article is written with its authors and editors.
    The author table is the one that [findByEmail] reads; what a save
    cascades to it depends on the [Article] entity, which is not among
    the sources, and is left out. *)
Definition save_step (article : Article) (w : World) : Reply unit * World :=
  match article_id article with
  | None => (Failed "missing primary key", emit (RepositorySave article false) w)
  | Some k =>
      let '(r, rest) := next_reply (saveReplies w) in
      match r with
      | Ok _ =>
          (Ok tt, emit (RepositorySave article true)
                    (set_articleTable (<[k := article]> (articleTable w))
                       (set_saveReplies rest w)))
      | Failed reason =>
          (Failed reason, emit (RepositorySave article false) (set_saveReplies rest w))
      end
  end.

(** [await this.articleRepository.save(article)]. *)
Definition articleRepository_save (article : Article) : Async Article :=
  λ w, match save_step article w with
       | (Ok _, w') => (Returned article, w')
       | (Failed reason, w') => (Thrown (Rejection reason), w')
       end.

(** [this.articleRepository.save(article)] with the promise dropped, as
    in [publish].  The write is applied when it is issued. *)
Definition articleRepository_save_detached (article : Article) : Async unit :=
  λ w, match save_step article w with
       | (Ok _, w') => (Returned tt, w')
       | (Failed reason, w') => (Returned tt, add_unhandled reason w')
       end.

(** [await this.articleRepository.delete(id)], for a deletion that the
    repository accepts; a rejected deletion is not described. *)
Definition articleRepository_delete (id : string) : Async unit :=
  modify (λ w, emit (RepositoryDelete id)
                 (set_articleTable (delete id (articleTable w)) w)).

(** *** The author service *)

Definition same_email (e : option string) (a : Author) : bool :=
  bool_decide (author_email a = e).

(** Modelled from the spec: [AuthorService.findByEmail] is not among the
    sources.  "Resolve each submitted author against existing records by
    email": the first row of the author table with that email, if any. *)
Definition authorService_findByEmail (email : option string) : Async (option Author) :=
  gets (λ w, List.find (same_email email) (authorTable w)).

(** [Promise.all] over a list of computations, in list order. *)
Fixpoint Promise_all {A} (ps : list (Async A)) : Async (list A) :=
  match ps with
  | [] => ret []
  | p :: ps' =>
      await x ← p;
      await xs ← Promise_all ps';
      ret (x :: xs)
  end.

(** ** Validation *)

(** class-validator's [IsNotEmpty]: the value is not [''], [null] or
    [undefined]. *)
Definition isNotEmpty (v : option string) : bool :=
  match v with
  | Some s => negb (String.eqb s "")
  | None => false
  end.

Definition check_IsNotEmpty (property : string) (v : option string)
  : list ValidationError :=
  if isNotEmpty v then []
  else [MkValidationError property
          [("isNotEmpty", property +:+ " should not be empty")] []].

(** [validateSync(a)] for an [AuthorDTO]: one error per property that
    violates its annotation. *)
Definition validateSync (a : AuthorDTO) : list ValidationError :=
  check_IsNotEmpty "name" (dto_name a) ++
  check_IsNotEmpty "email" (dto_email a) ++
  check_IsNotEmpty "school" (dto_school a) ++
  check_IsNotEmpty "biography" (dto_biography a) ++
  check_IsNotEmpty "country" (dto_country a).

(** Modelled from the spec: the [@validated()] / [@validate()] decorators
    of [decorators/Validate] are not among the sources.  "Validation
    failures surface as a structured list of violated constraints",
    "raised before any external mutation": the annotated argument is
    checked before the method body runs. *)
Definition validated (E : Env) (articleDto : ArticleDTO) : Async unit :=
  match articleDtoErrors E articleDto with
  | [] => ret tt
  | errors => throw (ValidationErrors errors)
  end.

Definition includes (l : list string) (s : string) : bool :=
  existsb (String.eqb s) l.

Definition validateFile (E : Env) (file : MulterFile) : Async unit :=
  let errors : list ValidationError := [] in
  let errors :=
    if negb (includes (ALLOWED_FORMATS E) (mimetype file)) then
      errors ++
      [MkValidationError "file"
         [("mimeType",
           "MimeType must be one of [" +:+
             String.concat ", " (ALLOWED_FORMATS E) +:+ "]")]
         []]
    else errors in
  if (0 <? length errors)%nat then throw (ValidationErrors errors) else ret tt.

(** ** Conversions and field assignments *)

(** [plainToClass(Author, dto)]: a new [Author] (whose constructor sets
    the level) with the properties of the DTO. *)
Definition Author_of_dto (d : AuthorDTO) : Author :=
  {| author_id := None;
     author_name := dto_name d;
     author_email := dto_email d;
     author_level := AUTHOR;
     school := dto_school d;
     biography := dto_biography d;
     country := dto_country d;
     teacher := None;
     profile := None |}.

(** [plainToClass(Article, articleDto)], after [articleDto.authors] was
    replaced by the resolved authors. *)
Definition Article_of_dto (articleDto : ArticleDTO) (resolved : list Author) : Article :=
  {| article_id := dto_id articleDto;
     title := dto_title articleDto;
     folderId := None; docId := None; markingGridId := None;
     wordpressId := None;
     authors := resolved;
     editors := [] |}.

Definition set_article_id (v : option string) (a : Article) : Article :=
  {| article_id := v; title := title a; folderId := folderId a;
     docId := docId a; markingGridId := markingGridId a;
     wordpressId := wordpressId a; authors := authors a; editors := editors a |}.

Definition set_folderId (v : option string) (a : Article) : Article :=
  {| article_id := article_id a; title := title a; folderId := v;
     docId := docId a; markingGridId := markingGridId a;
     wordpressId := wordpressId a; authors := authors a; editors := editors a |}.

Definition set_docId (v : option string) (a : Article) : Article :=
  {| article_id := article_id a; title := title a; folderId := folderId a;
     docId := v; markingGridId := markingGridId a;
     wordpressId := wordpressId a; authors := authors a; editors := editors a |}.

Definition set_markingGridId (v : option string) (a : Article) : Article :=
  {| article_id := article_id a; title := title a; folderId := folderId a;
     docId := docId a; markingGridId := v;
     wordpressId := wordpressId a; authors := authors a; editors := editors a |}.

Definition set_wordpressId (v : option Z) (a : Article) : Article :=
  {| article_id := article_id a; title := title a; folderId := folderId a;
     docId := docId a; markingGridId := markingGridId a;
     wordpressId := v; authors := authors a; editors := editors a |}.

(** [article.editors.push(editor)]. *)
Definition push_editor (editor : Editor) (a : Article) : Article :=
  {| article_id := article_id a; title := title a; folderId := folderId a;
     docId := docId a; markingGridId := markingGridId a;
     wordpressId := wordpressId a; authors := authors a;
     editors := editors a ++ [editor] |}.

(** [for (const x of l) body(x)] and [l.forEach(body)]. *)
Fixpoint for_each {A} (l : list A) (body : A → Async unit) : Async unit :=
  match l with
  | [] => ret tt
  | x :: l' => body x;; for_each l' body
  end.

(** ** The service *)

Module ArticleService.

Definition findOne (id : string) : Async (option Article) :=
  log_info "Find one article";;
  articleRepository_findOne id.

Definition findAuthorOrAuthor (author : Author) : Async Author :=
  await found ← authorService_findByEmail (author_email author);
  ret (match found with
       | Some existing => existing
       | None => author
       end).

Definition create (E : Env) (articleDto : ArticleDTO) (file : MulterFile)
  : Async Article :=
  validated E articleDto;;
  if (length (dto_authors articleDto) <? 1)%nat
     || existsb (λ a, (0 <? length (validateSync a))%nat) (dto_authors articleDto)
  then throw (Error "")
  else
    validateFile E file;;
    (* DTO -> Class *)
    let submitted := map Author_of_dto (dto_authors articleDto) in
    await resolved ← Promise_all (map findAuthorOrAuthor submitted);
    let article := Article_of_dto articleDto resolved in
    (* the rendering of the article that follows in the log is left out *)
    log_info "Create a new article => ";;
    await folder ← driveService (createFolder (title article) (google_parent E));
    let article := set_folderId (Some folder) article in
    await doc ← driveService
      (createFile (title article) file "application/vnd.google-apps.document" folder);
    let article := set_docId (Some doc) article in
    await markingGrid ← driveService
      (copy (google_marking_grid E) folder ("Marking Grid for " +:+ title article));
    let article := set_markingGridId (Some markingGrid) article in
    (* Process permissions asynchronously *)
    for_each (authors article)
      (λ author, driveService_detached (shareFile doc "writer" (author_email author)));;
    await fresh ← uuid_v4;
    let article := set_article_id (Some fresh) article in
    await newArticle ← articleRepository_save article;
    dispatch (article_created newArticle);;
    ret newArticle.

Definition delete (id : string) : Async unit :=
  log_info "Delete a article";;
  articleRepository_delete id.

Definition publish (id : string) : Async ArticlePublishResponse :=
  await article ← articleRepository_findOne id;
  await wordpress ← wordpressService (publishArticle article);
  match article with
  | None => throw (TypeError "wordpressId")
  | Some article =>
      let article := set_wordpressId (Some (wp_id wordpress)) article in
      articleRepository_save_detached article;;
      ret {| resp_article := article; resp_wordpress := wordpress |}
  end.

Definition getPublished (id : string) : Async (option ArticlePublishResponse) :=
  await article ← articleRepository_findOne id;
  match article with
  | None => ret None
  | Some article =>
      await wordpress ← wordpressService (getArticle article);
      ret (Some {| resp_article := article; resp_wordpress := wordpress |})
  end.

Definition updateCopyright (result : AnalysisResult) : Async unit :=
  await article ← articleRepository_findOne (articleId result);
  match article with
  | None => throw (TypeError "title")
  | Some article => console_log (title article)
  end.

(** The object that [assign] builds with [reduce], starting from [{}]:
    its own properties, editors by identifier, and its prototype.  The
    prototype is [Object.prototype] ([None]) until an editor is assigned
    under the key "__proto__": that assignment creates no property and
    makes the editor the prototype. *)
Record EditorsById := {
  own_properties : gmap string Editor;
  prototype : option Editor;
}.

(** The property names of [Object.prototype].  Each holds a function,
    and "__proto__" reads as the prototype of the object: every one of
    them reads as a truthy value. *)
Definition Object_prototype : list string :=
  ["constructor"; "__defineGetter__"; "__defineSetter__"; "hasOwnProperty";
   "__lookupGetter__"; "__lookupSetter__"; "isPrototypeOf";
   "propertyIsEnumerable"; "toString"; "valueOf"; "__proto__"; "toLocaleString"].

(** [editor[key]] on an editor object itself: the properties of the
    record. *)
Definition Editor_get (editor : Editor) (key : string) : option string :=
  if String.eqb key "id" then Some (editor_id editor)
  else if String.eqb key "name" then Some (editor_name editor)
  else if String.eqb key "email" then Some (editor_email editor)
  else None.

(** [map[obj.id] = obj]. *)
Definition set_by_id (map : EditorsById) (obj : Editor) : EditorsById :=
  if String.eqb (editor_id obj) "__proto__"
  then {| own_properties := own_properties map; prototype := Some obj |}
  else {| own_properties := <[editor_id obj := obj]> (own_properties map);
          prototype := prototype map |}.

(** Whether [map[key]] is truthy: an own property holds an editor; a
    key that is not an own property is looked up along the prototype
    chain, first in the editor that became the prototype, if any (a
    string is truthy when it is not empty), then in [Object.prototype]. *)
Definition truthy_at (map : EditorsById) (key : string) : bool :=
  match own_properties map !! key with
  | Some _ => true
  | None =>
      match prototype map with
      | Some editor =>
          match Editor_get editor key with
          | Some value => negb (String.eqb value "")
          | None => includes Object_prototype key
          end
      | None => includes Object_prototype key
      end
  end.

Definition existing_editors (l : list Editor) : EditorsById :=
  foldl set_by_id {| own_properties := ∅; prototype := None |} l.

(** [!existingEditors[editor.id]]. *)
Definition not_existing (existingEditors : EditorsById) (editor : Editor) : bool :=
  negb (truthy_at existingEditors (editor_id editor)).

(** The [remove] flag is accepted and never read. *)
Definition assign (id : string) (editors_in : list Editor) (remove : bool)
  : Async (option Article) :=
  await article ← findOne id;
  match article with
  | None => ret None
  | Some article =>
      let existingEditors := existing_editors (editors article) in
      let article :=
        foldl (λ article editor,
                 if not_existing existingEditors editor
                 then push_editor editor article
                 else article)
              article editors_in in
      await _ ← articleRepository_save article;
      for_each (editors article)
        (λ editor,
           if not_existing existingEditors editor
           then dispatch (article_assigned article editor)
           else ret tt);;
      ret (Some article)
  end.

End ArticleService.

(** ** A small world for running the service *)

Module Sample.

Definition E : Env :=
  {| ALLOWED_FORMATS :=
       ["application/pdf";
        "application/vnd.openxmlformats-officedocument.wordprocessingml.document"];
     google_parent := "parent-folder";
     google_marking_grid := "marking-grid-template";
     articleDtoErrors := λ _, [] |}.

Definition editorA : Editor :=
  {| editor_id := "ed-a"; editor_name := "Ada"; editor_email := "ada@example.org" |}.

Definition editorB : Editor :=
  {| editor_id := "ed-b"; editor_name := "Ben"; editor_email := "ben@example.org" |}.

Definition carol : Author :=
  {| author_id := Some "au-1";
     author_name := Some "Carol";
     author_email := Some "carol@example.org";
     author_level := AUTHOR;
     school := Some "York";
     biography := Some "Writes.";
     country := Some "UK";
     teacher := Some "Mr T";
     profile := None |}.

(** Carol as she is submitted: same email, other details. *)
Definition carolDto : AuthorDTO :=
  {| dto_name := Some "Carol C.";
     dto_email := Some "carol@example.org";
     dto_school := Some "Leeds";
     dto_biography := Some "Writes more.";
     dto_country := Some "UK" |}.

Definition daveDto : AuthorDTO :=
  {| dto_name := Some "Dave";
     dto_email := Some "dave@example.org";
     dto_school := Some "Hull";
     dto_biography := Some "Reads.";
     dto_country := Some "UK" |}.

(** An author without a school. *)
Definition badDto : AuthorDTO :=
  {| dto_name := Some "Eve";
     dto_email := Some "eve@example.org";
     dto_school := Some "";
     dto_biography := Some "Listens.";
     dto_country := Some "UK" |}.

Definition article1 : Article :=
  {| article_id := Some "art-1";
     title := "On Tides";
     folderId := Some "folder-1";
     docId := Some "doc-1";
     markingGridId := Some "grid-1";
     wordpressId := None;
     authors := [carol];
     editors := [editorB] |}.

Definition dto (l : list AuthorDTO) : ArticleDTO :=
  {| dto_id := Some "submitted-id"; dto_title := "On Waves"; dto_authors := l |}.

Definition pdf : MulterFile :=
  {| originalname := "waves.pdf"; mimetype := "application/pdf" |}.

Definition exe : MulterFile :=
  {| originalname := "waves.exe"; mimetype := "application/x-msdownload" |}.

Definition uuids (n : nat) : string :=
  match n with
  | 0 => "3f2b8c1e-0000-4000-8000-000000000001"
  | _ => "3f2b8c1e-0000-4000-8000-000000000002"
  end.

(** One stored article, one stored author, every collaborator answering. *)
Definition world (shares : list (Reply unit)) : World :=
  {| articleTable := {[ "art-1" := article1 ]};
     authorTable := [carol];
     trace := [];
     unhandled := [];
     driveReplies := [Ok "folder-9"; Ok "doc-9"; Ok "grid-9"];
     shareReplies := shares;
     wordpressReplies := [Ok {| wp_id := 41 |}; Ok {| wp_id := 42 |}];
     saveReplies := [Ok tt; Ok tt];
     uuidSource := uuids;
     uuidDrawn := 0 |}.

Definition w0 : World := world [Ok tt; Ok tt].

End Sample.

(** A submission that carries, as its own identifier, the identifier
    that the generator is about to draw, in a world where the Drive
    adapter answers [createFolder] with that same identifier. *)
Module Collision.

Definition input : ArticleDTO :=
  {| dto_id := Some (Sample.uuids 0);
     dto_title := "On Waves";
     dto_authors := [Sample.carolDto] |}.

Definition world : World :=
  set_driveReplies [Ok (Sample.uuids 0); Ok "doc-9"; Ok "grid-9"] Sample.w0.

End Collision.

(** ** Reading a trace *)

(** The events handed to the dispatcher, in order. *)
Definition dispatched (t : list Effect) : list Event :=
  omap (λ e, match e with Dispatched ev => Some ev | _ => None end) t.

(** The editors for whom [article.assigned] was dispatched, in order. *)
Definition assigned_editors (t : list Effect) : list Editor :=
  omap (λ e, match e with
             | Dispatched (article_assigned _ editor) => Some editor
             | _ => None
             end) t.

(** The requests made to the Drive adapter, awaited or not. *)
Definition drive_calls (t : list Effect) : list DriveCall :=
  omap (λ e, match e with
             | DriveAwaited call _ => Some call
             | DriveDetached call => Some call
             | _ => None
             end) t.


(** The requests made to the WordPress adapter. *)
Definition wordpress_calls (t : list Effect) : list WordpressCall :=
  omap (λ e, match e with WordpressAwaited call _ => Some call | _ => None end) t.

(** The posts that [publishArticle] was asked to create. *)
Definition publish_calls (t : list Effect) : list (option Article) :=
  omap (λ e, match e with
             | WordpressAwaited (publishArticle a) _ => Some a
             | _ => None
             end) t.

(** ** Auxiliary definitions for the proofs *)

Definition emit_all (es : list Effect) (w : World) : World :=
  {| articleTable := articleTable w; authorTable := authorTable w;
     trace := trace w ++ es; unhandled := unhandled w;
     driveReplies := driveReplies w; shareReplies := shareReplies w;
     wordpressReplies := wordpressReplies w; saveReplies := saveReplies w;
     uuidSource := uuidSource w; uuidDrawn := uuidDrawn w |}.

Definition set_editors (l : list Editor) (a : Article) : Article :=
  {| article_id := article_id a; title := title a; folderId := folderId a;
     docId := docId a; markingGridId := markingGridId a;
     wordpressId := wordpressId a; authors := authors a; editors := l |}.

(** What [findAuthorOrAuthor] returns, as a function of the author table. *)
Definition resolve_author (table : list Author) (author : Author) : Author :=
  match List.find (same_email (author_email author)) table with
  | Some existing => existing
  | None => author
  end.

(** Whether the article has an editor with the identifier of [e]. *)
Definition assigned_by_id (a : Article) (e : Editor) : bool :=
  existsb (λ e', String.eqb (editor_id e') (editor_id e)) (editors a).

(** An editor is already assigned when the article has an editor with
    the same identifier. *)
Definition already_assigned (a : Article) (e : Editor) : Prop :=
  ∃ e', e' ∈ editors a ∧ editor_id e' = editor_id e.

(** The preconditions of [create]: the DTO passes its own annotations,
    there is at least one author, every author passes [validateSync],
    and the MIME type of the file is an allowed format. *)
Definition valid_create_input (E : Env) (articleDto : ArticleDTO) (file : MulterFile)
  : Prop :=
  articleDtoErrors E articleDto = [] ∧
  dto_authors articleDto ≠ [] ∧
  (∀ a, a ∈ dto_authors articleDto → validateSync a = []) ∧
  mimetype file ∈ ALLOWED_FORMATS E.

(** The three ways in which an input breaks them past the DTO's own
    annotations. *)
Definition invalid_create_input (E : Env) (articleDto : ArticleDTO) (file : MulterFile)
  : Prop :=
  dto_authors articleDto = [] ∨
  (∃ a, a ∈ dto_authors articleDto ∧ validateSync a ≠ []) ∨
  mimetype file ∉ ALLOWED_FORMATS E.

(** The authors that [create] attaches to the article. *)
Definition resolved_authors (w : World) (articleDto : ArticleDTO) : list Author :=
  map (resolve_author (authorTable w)) (map Author_of_dto (dto_authors articleDto)).

(** The article that a successful [create] builds. *)
Definition created_article (w : World) (articleDto : ArticleDTO)
    (folder doc markingGrid : string) : Article :=
  {| article_id := Some (uuidSource w (uuidDrawn w));
     title := dto_title articleDto;
     folderId := Some folder;
     docId := Some doc;
     markingGridId := Some markingGrid;
     wordpressId := None;
     authors := resolved_authors w articleDto;
     editors := [] |}.


(** Two worlds that differ at most in what the permission calls answer
    and in the rejections that nobody handles. *)
Definition share_equiv (w1 w2 : World) : Prop :=
  articleTable w1 = articleTable w2 ∧
  authorTable w1 = authorTable w2 ∧
  trace w1 = trace w2 ∧
  driveReplies w1 = driveReplies w2 ∧
  wordpressReplies w1 = wordpressReplies w2 ∧
  saveReplies w1 = saveReplies w2 ∧
  uuidSource w1 = uuidSource w2 ∧
  uuidDrawn w1 = uuidDrawn w2.

(** A computation whose outcome cannot tell such worlds apart. *)
Definition share_blind {A} (m : Async A) : Prop :=
  ∀ w1 w2, share_equiv w1 w2 →
    (m w1).1 = (m w2).1 ∧ share_equiv (m w1).2 (m w2).2.

(** ** Further definitions: the legacy editor sheet, and predicates on
    computations *)

(** The saves requested from the repository, with their result. *)
Definition saves (t : list Effect) : list (Article * bool) :=
  omap (λ e, match e with
             | RepositorySave article saved => Some (article, saved)
             | _ => None
             end) t.

(** [src/es6/Editors.js], over the rows that
    [SheetUtils.getSheetAsJSON("Logins")] returns: a row is an object
    from column names to cells of text.  [people/Editor] is not among
    the sources: its constructor is [new_Editor]. *)
Module Editors.
Section Logins.

Variable EditorObject : Type.
Variable new_Editor : gmap string string → EditorObject.

(** [e.email == email], for a cell that is text or absent. *)
Definition email_is (email : string) (e : gmap string string) : bool :=
  match e !! "email" with
  | Some cell => String.eqb cell email
  | None => false
  end.

(** [emails.includes(j.email)]. *)
Definition email_among (emails : list string) (j : gmap string string) : bool :=
  match j !! "email" with
  | Some cell => includes emails cell
  | None => false
  end.

Definition getEditorByEmail (data : list (gmap string string)) (email : string)
  : option EditorObject :=
  let rows := List.filter (email_is email) data in
  match rows with
  | row :: _ => Some (new_Editor row)
  | [] => None
  end.

Definition getEditorsByEmails (data : list (gmap string string)) (emails : list string)
  : list (gmap string string) :=
  List.filter (email_among emails) data.

End Logins.
End Editors.

(** A computation that leaves the article table and the dispatched
    events as they were. *)
Definition quiet {A} (m : Async A) : Prop :=
  ∀ w, articleTable (m w).2 = articleTable w ∧
       dispatched (trace (m w).2) = dispatched (trace w) ∧
       saves (trace (m w).2) = saves (trace w).

(** Either the article is stored and announced, or nothing is. *)
Definition stored_and_announced (w : World) (r : Outcome Article * World) : Prop :=
  match r.1 with
  | Returned a =>
      ∃ k, article_id a = Some k ∧
           articleTable r.2 = <[k := a]> (articleTable w) ∧
           saves (trace r.2) = saves (trace w) ++ [(a, true)] ∧
           dispatched (trace r.2) = dispatched (trace w) ++ [article_created a]
  | Thrown _ =>
      articleTable r.2 = articleTable w ∧
      dispatched (trace r.2) = dispatched (trace w)
  end.

(** The three awaited Drive requests of [create], given the folder that
    the first one returned. *)
Definition create_drive_requests (E : Env) (articleDto : ArticleDTO)
    (file : MulterFile) (folder : string) : list DriveCall :=
  [createFolder (dto_title articleDto) (google_parent E);
   createFile (dto_title articleDto) file
     "application/vnd.google-apps.document" folder;
   copy (google_marking_grid E) folder
     ("Marking Grid for " +:+ dto_title articleDto)].

(** ** The world is only ever extended *)

Lemma emit_all_nil w : emit_all [] w = w.
Proof. destruct w; unfold emit_all; simpl. by rewrite app_nil_r. Qed.

Lemma emit_all_emit es e w : emit_all es (emit e w) = emit_all (e :: es) w.
Proof. unfold emit_all, emit; simpl. by rewrite <- app_assoc. Qed.

Lemma emit_as_emit_all e w : emit e w = emit_all [e] w.
Proof. reflexivity. Qed.

(** ** [assign] *)

Section Assign.
Import ArticleService.

Lemma truthy_at_proto (m : EditorsById) : truthy_at m "__proto__" = true.
Proof.
  unfold truthy_at. destruct (own_properties m !! "__proto__"); [done|].
  by destruct (prototype m).
Qed.

Lemma own_properties_kept (l : list Editor) (m : EditorsById) k :
  is_Some (own_properties m !! k) →
  is_Some (own_properties (foldl set_by_id m l) !! k).
Proof.
  revert m. induction l as [|x l IH]; intros m Hm; simpl; [done|].
  apply IH. unfold set_by_id. destruct (String.eqb (editor_id x) "__proto__"); simpl.
  - done.
  - destruct (decide (editor_id x = k)) as [->|Hne].
    + rewrite lookup_insert_eq. by eexists.
    + by rewrite lookup_insert_ne.
Qed.

Lemma own_properties_member (l : list Editor) (m : EditorsById) e :
  e ∈ l → editor_id e ≠ "__proto__" →
  is_Some (own_properties (foldl set_by_id m l) !! editor_id e).
Proof.
  revert m. induction l as [|x l IH]; intros m He Hid; simpl.
  - by apply elem_of_nil in He.
  - apply elem_of_cons in He as [->|He]; [|by apply IH].
    apply own_properties_kept. unfold set_by_id.
    apply String.eqb_neq in Hid. rewrite Hid. simpl.
    rewrite lookup_insert_eq. by eexists.
Qed.

Lemma own_properties_fresh (l : list Editor) (m : EditorsById) k :
  own_properties m !! k = None →
  (∀ e, e ∈ l → editor_id e ≠ k) →
  own_properties (foldl set_by_id m l) !! k = None.
Proof.
  revert m. induction l as [|x l IH]; intros m Hm Hl; simpl; [done|].
  apply IH; [|intros e He; apply Hl; by right].
  unfold set_by_id. destruct (String.eqb (editor_id x) "__proto__"); simpl; [done|].
  rewrite lookup_insert_ne; [done|]. apply Hl. by left.
Qed.

Lemma prototype_kept (l : list Editor) (m : EditorsById) :
  (∀ e, e ∈ l → editor_id e ≠ "__proto__") →
  prototype (foldl set_by_id m l) = prototype m.
Proof.
  revert m. induction l as [|x l IH]; intros m Hl; simpl; [done|].
  rewrite IH by (intros e He; apply Hl; by right).
  unfold set_by_id.
  assert (Hx : editor_id x ≠ "__proto__") by (apply Hl; by left).
  apply String.eqb_neq in Hx. by rewrite Hx.
Qed.

(** An identifier that some member carries reads as present. *)
Lemma not_existing_member (l : list Editor) e e' :
  e' ∈ l → editor_id e' = editor_id e →
  not_existing (existing_editors l) e = false.
Proof.
  intros He' Heq. unfold not_existing. apply negb_false_iff. rewrite <- Heq.
  destruct (decide (editor_id e' = "__proto__")) as [->|Hid].
  - apply truthy_at_proto.
  - unfold truthy_at, existing_editors.
    by destruct (own_properties_member l {| own_properties := ∅; prototype := None |}
                   e' He' Hid) as [x ->].
Qed.

Lemma not_existing_not_proto (m : EditorsById) e :
  not_existing m e = true → editor_id e ≠ "__proto__".
Proof.
  unfold not_existing. intros Hnot Hid. rewrite Hid, truthy_at_proto in Hnot.
  discriminate.
Qed.

(** Appending editors that were not present keeps present what was. *)
Lemma not_existing_stays (l added : list Editor) e :
  (∀ x, x ∈ added → editor_id x ≠ "__proto__") →
  not_existing (existing_editors l) e = false →
  not_existing (existing_editors (l ++ added)) e = false.
Proof.
  intros Hadded. unfold not_existing, existing_editors.
  rewrite !negb_false_iff, foldl_app.
  set (m := foldl set_by_id _ l). unfold truthy_at.
  rewrite (prototype_kept added m Hadded).
  destruct (own_properties m !! editor_id e) as [x|] eqn:Hown.
  - intros _.
    by destruct (own_properties_kept added m (editor_id e)) as [y ->];
      [rewrite Hown; by eexists|].
  - intros Hproto. by destruct (own_properties (foldl set_by_id m added) !! editor_id e).
Qed.

(** With ordinary identifiers the test is the membership test by
    identifier. *)
Lemma not_existing_ordinary (l : list Editor) e :
  includes Object_prototype (editor_id e) = false →
  (∀ e', e' ∈ l → editor_id e' ≠ "__proto__") →
  not_existing (existing_editors l) e
  = negb (existsb (λ e', String.eqb (editor_id e') (editor_id e)) l).
Proof.
  intros Hord Hl. unfold not_existing. f_equal.
  destruct (existsb _ l) eqn:Hex.
  - apply existsb_exists in Hex as (e' & He' & Heq).
    apply String.eqb_eq in Heq. apply list_elem_of_In in He'.
    pose proof (not_existing_member l e e' He' Heq) as Hmem.
    unfold not_existing in Hmem. by apply negb_false_iff in Hmem.
  - unfold truthy_at, existing_editors.
    rewrite (prototype_kept l _ Hl). simpl.
    rewrite own_properties_fresh; [done|done|].
    intros e' He' Heq.
    assert (Htrue : existsb (λ e', String.eqb (editor_id e') (editor_id e)) l = true).
    { apply existsb_exists. exists e'. split; [by apply list_elem_of_In|].
      by apply String.eqb_eq. }
    congruence.
Qed.

(** The members of the article are all known to the map built from them. *)
Lemma filter_existing_nil (l : list Editor) :
  List.filter (not_existing (existing_editors l)) l = [].
Proof.
  assert (H : ∀ l', (∀ e, e ∈ l' → e ∈ l) →
              List.filter (not_existing (existing_editors l)) l' = []).
  { induction l' as [|x l' IH]; intros Hsub; simpl; [done|].
    rewrite (not_existing_member l x x) by (done || apply Hsub; by left).
    apply IH. intros e He. apply Hsub. by right. }
  by apply H.
Qed.

Lemma filter_filter_same {A} (p : A → bool) (l : list A) :
  List.filter p (List.filter p l) = List.filter p l.
Proof.
  induction l as [|x l IH]; simpl; [done|].
  destruct (p x) eqn:Hx; simpl; [rewrite Hx, IH|]; done.
Qed.

(** The first loop of [assign] appends, in the order of the input, the
    incoming editors whose identifier the article did not have. *)
Lemma push_loop ex (a : Article) (l : list Editor) :
  foldl (λ article editor,
           if not_existing ex editor then push_editor editor article else article)
        a l
  = set_editors (editors a ++ List.filter (not_existing ex) l) a.
Proof.
  revert a. induction l as [|x l IH]; intros a; simpl.
  - destruct a; unfold set_editors; simpl. by rewrite app_nil_r.
  - rewrite IH. destruct (not_existing ex x); [|done].
    unfold set_editors, push_editor; simpl. by rewrite <- app_assoc.
Qed.

(** The second loop dispatches one event for each editor that passes
    the same test. *)
Lemma dispatch_loop ex (a : Article) (l : list Editor) w :
  for_each l (λ editor,
                if not_existing ex editor
                then dispatch (article_assigned a editor)
                else ret tt) w
  = (Returned tt,
     emit_all (map (λ e, Dispatched (article_assigned a e))
                 (List.filter (not_existing ex) l)) w).
Proof.
  revert w. induction l as [|x l IH]; intros w; simpl.
  - unfold ret. by rewrite emit_all_nil.
  - unfold bind. destruct (not_existing ex x); simpl.
    + rewrite IH. by rewrite emit_all_emit.
    + by rewrite IH.
Qed.

(** A run of [assign] on a stored article. *)
Lemma assign_found id eds rm w a :
  articleTable w !! id = Some a →
  let added := List.filter (not_existing (existing_editors (editors a))) eds in
  let a' := set_editors (editors a ++ added) a in
  assign id eds rm w =
    match save_step a' (emit (LogInfo "Find one article") w) with
    | (Ok _, w1) =>
        (Returned (Some a'),
         emit_all (map (λ e, Dispatched (article_assigned a' e)) added) w1)
    | (Failed r, w1) => (Thrown (Rejection r), w1)
    end.
Proof.
  intros Hfind added a'.
  unfold assign, findOne, bind, log_info, modify,
    articleRepository_findOne, gets; simpl.
  rewrite Hfind. rewrite push_loop. fold added. fold a'.
  unfold articleRepository_save.
  destruct (save_step a' _) as [[[]|r] w1]; [|done].
  rewrite dispatch_loop. unfold ret. simpl.
  rewrite List.filter_app, filter_existing_nil. simpl.
  unfold added. by rewrite filter_filter_same.
Qed.

Lemma assign_missing id eds rm w :
  articleTable w !! id = None →
  assign id eds rm w = (Returned None, emit (LogInfo "Find one article") w).
Proof.
  intros Hfind.
  unfold assign, findOne, bind, log_info, modify,
    articleRepository_findOne, gets; simpl.
  by rewrite Hfind.
Qed.

End Assign.

Section AssignClaims.
Import ArticleService.

Lemma filter_all_existing (l eds : list Editor) :
  (∀ e, e ∈ eds → ∃ e', e' ∈ l ∧ editor_id e' = editor_id e) →
  List.filter (not_existing (existing_editors l)) eds = [].
Proof.
  induction eds as [|x eds IH]; intros Hall; simpl; [done|].
  destruct (Hall x) as (e' & He' & Heq); [by left|].
  rewrite (not_existing_member l x e' He' Heq).
  apply IH. intros e He. apply Hall. by right.
Qed.

Lemma not_existing_newcomer (l : list Editor) e :
  includes Object_prototype (editor_id e) = false →
  (∀ e', e' ∈ l → editor_id e' ≠ "__proto__") →
  (∀ e', e' ∈ l → editor_id e' ≠ editor_id e) →
  not_existing (existing_editors l) e = true.
Proof.
  intros Hord Hl Hnew. rewrite (not_existing_ordinary l e Hord Hl).
  apply negb_true_iff, not_true_iff_false. intros Hex.
  apply existsb_exists in Hex as (e' & He' & Heq).
  apply String.eqb_eq in Heq. apply list_elem_of_In in He'. by apply (Hnew e').
Qed.

Lemma set_editors_same (a : Article) : set_editors (editors a ++ []) a = a.
Proof. destruct a; unfold set_editors; simpl. by rewrite app_nil_r. Qed.

Lemma assigned_editors_app t1 t2 :
  assigned_editors (t1 ++ t2) = assigned_editors t1 ++ assigned_editors t2.
Proof. apply omap_app. Qed.

Lemma dispatched_app t1 t2 :
  dispatched (t1 ++ t2) = dispatched t1 ++ dispatched t2.
Proof. apply omap_app. Qed.

Lemma assigned_editors_events (a : Article) (l : list Editor) :
  assigned_editors (map (λ e, Dispatched (article_assigned a e)) l) = l.
Proof. induction l as [|x l IH]; simpl; [done|]. by rewrite IH. Qed.

(** Whoever the article and the unassigned editor (its identifier not
    being a property name of [Object.prototype], and no editor of the
    article having become the prototype), naming the editor twice
    appends the editor twice and dispatches two events. *)
Lemma assign_twice_in_input id rm w a e sr :
  articleTable w !! id = Some a →
  article_id a = Some id →
  (∀ e', e' ∈ editors a → editor_id e' ≠ editor_id e) →
  includes Object_prototype (editor_id e) = false →
  (∀ e', e' ∈ editors a → editor_id e' ≠ "__proto__") →
  saveReplies w = Ok tt :: sr →
  let a' := set_editors (editors a ++ [e; e]) a in
  ∃ w', assign id [e; e] rm w = (Returned (Some a'), w') ∧
        articleTable w' !! id = Some a' ∧
        assigned_editors (trace w') = assigned_editors (trace w) ++ [e; e].
Proof.
  intros Hfind Hid Hnew Hord Hproto Hsave a'.
  rewrite (assign_found _ _ _ _ _ Hfind).
  cbn [List.filter]. rewrite (not_existing_newcomer _ e Hord Hproto Hnew).
  fold a'. unfold save_step. simpl. rewrite Hid, Hsave. simpl.
  refine (ex_intro _ _ (conj eq_refl _)). simpl. split.
  - apply lookup_insert_eq.
  - rewrite !assigned_editors_app. simpl. by rewrite !app_nil_r.
Qed.

(** C1, as the code behaves: on the stored article "art-1", whose only
    editor is Ben, [assign("art-1", [Ada, Ada])] leaves Ada twice in the
    returned and in the stored editor list and dispatches two
    [article.assigned] events for her, where the specification asks
    for one entry and one event. *)
Theorem assign_duplicate_input_assigns_twice :
  ∃ a w',
    assign "art-1" [Sample.editorA; Sample.editorA] false Sample.w0
      = (Returned (Some a), w') ∧
    editors a = [Sample.editorB; Sample.editorA; Sample.editorA] ∧
    (editors <$> articleTable w' !! "art-1")
      = Some [Sample.editorB; Sample.editorA; Sample.editorA] ∧
    assigned_editors (trace w') = [Sample.editorA; Sample.editorA].
Proof.
  destruct (assign_twice_in_input "art-1" false Sample.w0 Sample.article1
              Sample.editorA [Ok tt]) as (w' & Hrun & Htab & Hev).
  - reflexivity.
  - reflexivity.
  - intros e' He'. apply list_elem_of_singleton in He' as ->. discriminate.
  - reflexivity.
  - intros e' He'. apply list_elem_of_singleton in He' as ->. discriminate.
  - reflexivity.
  - exists (set_editors (editors Sample.article1 ++ [Sample.editorA; Sample.editorA])
              Sample.article1), w'.
    split; [exact Hrun|]. split; [reflexivity|]. split; [|exact Hev].
    by rewrite Htab.
Qed.

(** C8: when every incoming editor is already assigned to the stored
    article (by identifier), [assign] dispatches no event (the only new
    effects are the log line and the save of the unchanged article) and
    the stored article, hence its editor list, is what it was; on a
    table keyed by primary key the whole table is unchanged. *)
Theorem assign_already_assigned_noop id eds rm w a :
  articleTable w !! id = Some a →
  (∀ e, e ∈ eds → already_assigned a e) →
  let r := assign id eds rm w in
  (∃ saved, trace r.2 = trace w ++ [LogInfo "Find one article"; RepositorySave a saved]) ∧
  dispatched (trace r.2) = dispatched (trace w) ∧
  articleTable r.2 !! id = Some a ∧
  (table_wf (articleTable w) → articleTable r.2 = articleTable w) ∧
  (r.1 = Returned (Some a) ∨ ∃ reason, r.1 = Thrown (Rejection reason)).
Proof.
  intros Hfind Hall r. unfold r.
  rewrite (assign_found _ _ _ _ _ Hfind).
  rewrite (filter_all_existing _ _ Hall). rewrite set_editors_same. simpl.
  unfold save_step.
  destruct (article_id a) as [k|] eqn:Hk; simpl.
  - destruct (next_reply (saveReplies w)) as [[[]|reason] rest]; simpl.
    + rewrite app_nil_r, <- app_assoc. simpl.
      split; [by eexists|]. split.
      { rewrite !dispatched_app. simpl. by rewrite app_nil_r. }
      split.
      { destruct (decide (k = id)) as [->|Hne].
        - apply lookup_insert_eq.
        - by rewrite lookup_insert_ne. }
      split; [|by left].
      intros Hwf. apply insert_id.
      specialize (Hwf _ _ Hfind). rewrite Hk in Hwf. by injection Hwf as ->.
    + rewrite <- app_assoc. simpl.
      split; [by eexists|]. split.
      { rewrite !dispatched_app. simpl. by rewrite app_nil_r. }
      split; [done|]. split; [done|]. right. by eexists.
  - rewrite <- app_assoc. simpl.
    split; [by eexists|]. split.
    { rewrite !dispatched_app. simpl. by rewrite app_nil_r. }
    split; [done|]. split; [done|]. right. by eexists.
Qed.

Lemma assign_already_assigned_noop_witness :
  let r := assign "art-1" [Sample.editorB; Sample.editorB] false Sample.w0 in
  (∃ saved, trace r.2 = trace Sample.w0 ++
              [LogInfo "Find one article"; RepositorySave Sample.article1 saved]) ∧
  dispatched (trace r.2) = dispatched (trace Sample.w0) ∧
  articleTable r.2 !! "art-1" = Some Sample.article1 ∧
  (table_wf (articleTable Sample.w0) → articleTable r.2 = articleTable Sample.w0) ∧
  (r.1 = Returned (Some Sample.article1) ∨ ∃ reason, r.1 = Thrown (Rejection reason)).
Proof.
  apply (assign_already_assigned_noop "art-1" [Sample.editorB; Sample.editorB]
           false Sample.w0 Sample.article1).
  - reflexivity.
  - intros e He. exists Sample.editorB. split; [by left|].
    apply elem_of_cons in He as [->|He]; [done|].
    by apply list_elem_of_singleton in He as ->.
Defined.

End AssignClaims.

Section AssignOrder.
Import ArticleService.

Lemma dispatched_of_events (a : Article) (l : list Editor) :
  dispatched (map (λ e, Dispatched (article_assigned a e)) l)
  = map (article_assigned a) l.
Proof. induction l as [|x l IH]; simpl; [done|]. by rewrite IH. Qed.

(** C10: whatever the run of [assign], every [article.assigned] event in
    the effects that the run adds to the trace comes after a save of
    the updated article that went through: the event carries that
    article, the editor is among its editors, and the article is the
    stored row when the run ends.  A run that throws dispatched no event. *)
Theorem assign_saves_before_dispatch id eds rm w :
  let r := assign id eds rm w in
  ∃ t, trace r.2 = trace w ++ t ∧
    (∀ t1 ev t2, t = t1 ++ Dispatched ev :: t2 →
       ∃ a' e k, ev = article_assigned a' e ∧
                 e ∈ editors a' ∧
                 RepositorySave a' true ∈ t1 ∧
                 article_id a' = Some k ∧
                 articleTable r.2 !! k = Some a') ∧
    (∀ x, r.1 = Thrown x → dispatched t = []).
Proof.
  intros r. unfold r. destruct (articleTable w !! id) as [a|] eqn:Hfind.
  2:{ rewrite (assign_missing _ _ _ _ Hfind). simpl.
      exists [LogInfo "Find one article"]. split; [done|]. split; [|done].
      intros [|y [|z t1]] ev t2 Hsplit; simplify_eq. }
  rewrite (assign_found _ _ _ _ _ Hfind).
  set (added := List.filter _ eds). set (a' := set_editors _ a).
  unfold save_step. destruct (article_id a') as [k|] eqn:Hk.
  2:{ simpl. exists [LogInfo "Find one article"; RepositorySave a' false].
      split; [by rewrite <- app_assoc|]. split; [|done].
      intros [|y [|z [|z' t1]]] ev t2 Hsplit; simplify_eq. }
  simpl. destruct (next_reply (saveReplies w)) as [[[]|reason] rest]; simpl.
  2:{ exists [LogInfo "Find one article"; RepositorySave a' false].
      split; [by rewrite <- app_assoc|]. split; [|done].
      intros [|y [|z [|z' t1]]] ev t2 Hsplit; simplify_eq. }
  exists ([LogInfo "Find one article"; RepositorySave a' true]
            ++ map (λ e, Dispatched (article_assigned a' e)) added).
  split; [by rewrite <- !app_assoc|]. split; [|done].
  intros t1 ev t2 Hsplit.
  destruct t1 as [|y [|z t1]]; [simplify_eq..|].
  injection Hsplit as <- <- Hmap.
  assert (Hin : Dispatched ev ∈ map (λ e, Dispatched (article_assigned a' e)) added).
  { rewrite Hmap. apply elem_of_app. right. by left. }
  apply list_elem_of_fmap in Hin as (e & Hev & He).
  exists a', e, k. injection Hev as ->.
  split; [done|]. split.
  { simpl. apply elem_of_app. by right. }
  split; [right; by left|]. split; [done|].
  apply lookup_insert_eq.
Qed.

(** The theorem at work: Ada is assigned to the stored article. *)
Lemma assign_saves_before_dispatch_witness :
  let r := assign "art-1" [Sample.editorA] false Sample.w0 in
  ∃ t, trace r.2 = trace Sample.w0 ++ t ∧
    (∀ t1 ev t2, t = t1 ++ Dispatched ev :: t2 →
       ∃ a' e k, ev = article_assigned a' e ∧
                 e ∈ editors a' ∧
                 RepositorySave a' true ∈ t1 ∧
                 article_id a' = Some k ∧
                 articleTable r.2 !! k = Some a') ∧
    (∀ x, r.1 = Thrown x → dispatched t = []).
Proof.
  exact (assign_saves_before_dispatch "art-1" [Sample.editorA] false Sample.w0).
Defined.

Example assign_dispatches_after_save :
  trace (assign "art-1" [Sample.editorA] false Sample.w0).2
  = let a' := set_editors [Sample.editorB; Sample.editorA] Sample.article1 in
    [LogInfo "Find one article";
     RepositorySave a' true;
     Dispatched (article_assigned a' Sample.editorA)].
Proof. reflexivity. Qed.

End AssignOrder.

(** ** [getPublished], [updateCopyright], [publish] *)

Section Published.
Import ArticleService.

Lemma wordpress_calls_app t1 t2 :
  wordpress_calls (t1 ++ t2) = wordpress_calls t1 ++ wordpress_calls t2.
Proof. apply omap_app. Qed.

Lemma publish_calls_app t1 t2 :
  publish_calls (t1 ++ t2) = publish_calls t1 ++ publish_calls t2.
Proof. apply omap_app. Qed.

(** C7: for an identifier with no stored article, [getPublished]
    returns [undefined] and leaves the world as it was, so the
    WordPress adapter is not called; for a stored article it asks the
    adapter for that article once and returns the article paired with
    the adapter's response (the adapter's rejection, if it rejects). *)
Theorem getPublished_spec id w :
  (articleTable w !! id = None →
     getPublished id w = (Returned None, w)) ∧
  (∀ a, articleTable w !! id = Some a →
     let r := getPublished id w in
     (∃ reply, wordpress_calls (trace r.2)
                 = wordpress_calls (trace w) ++ [getArticle a] ∧
               trace r.2 = trace w ++ [WordpressAwaited (getArticle a) reply] ∧
               r.1 = match reply with
                     | Ok post =>
                         Returned (Some {| resp_article := a; resp_wordpress := post |})
                     | Failed reason => Thrown (Rejection reason)
                     end) ∧
     (∀ post rest, wordpressReplies w = Ok post :: rest →
        r.1 = Returned (Some {| resp_article := a; resp_wordpress := post |}))).
Proof.
  split.
  - intros Hfind. unfold getPublished, bind, articleRepository_findOne, gets.
    by rewrite Hfind.
  - intros a Hfind r. unfold r.
    unfold getPublished, bind, articleRepository_findOne, gets, wordpressService.
    rewrite Hfind. split.
    + exists (next_reply (wordpressReplies w)).1.
      destruct (next_reply (wordpressReplies w)) as [[post|reason] rest]; simpl;
        rewrite wordpress_calls_app; done.
    + intros post rest Hreply. by rewrite Hreply.
Qed.

Lemma getPublished_spec_witness :
  getPublished "no-such-article" Sample.w0 = (Returned None, Sample.w0) ∧
  (getPublished "art-1" Sample.w0).1
    = Returned (Some {| resp_article := Sample.article1;
                        resp_wordpress := {| wp_id := 41 |} |}).
Proof.
  split.
  - apply (proj1 (getPublished_spec "no-such-article" Sample.w0)). reflexivity.
  - apply (proj2 (proj2 (getPublished_spec "art-1" Sample.w0)
                    Sample.article1 eq_refl)
             {| wp_id := 41 |} [Ok {| wp_id := 42 |}]).
    reflexivity.
Defined.

(** C9: when the analysis result names an article that is not stored,
    [updateCopyright] reads [title] of the missing article: the run
    throws a [TypeError] (it neither returns nor raises a not-found
    error of its own) and nothing else happens.  The title is read
    without any test of what the lookup returned: for a stored
    article the same statement logs it. *)
Theorem updateCopyright_missing_article result w :
  articleTable w !! articleId result = None →
  updateCopyright result w
    = (Thrown (TypeError "title"), w).
Proof.
  intros Hfind. unfold updateCopyright, bind, articleRepository_findOne, gets.
  by rewrite Hfind.
Qed.

Lemma updateCopyright_missing_article_witness :
  updateCopyright {| articleId := "no-such-article" |} Sample.w0
    = (Thrown (TypeError "title"), Sample.w0).
Proof.
  apply (updateCopyright_missing_article {| articleId := "no-such-article" |} Sample.w0).
  reflexivity.
Defined.

Lemma updateCopyright_stored_article result w a :
  articleTable w !! articleId result = Some a →
  updateCopyright result w = (Returned tt, emit (ConsoleLog (title a)) w).
Proof.
  intros Hfind. unfold updateCopyright, bind, articleRepository_findOne, gets.
  by rewrite Hfind.
Qed.

(** One run of [publish] on a stored article, the adapter and the
    repository answering. *)
Lemma publish_once id w a post wr sr :
  articleTable w !! id = Some a →
  article_id a = Some id →
  wordpressReplies w = Ok post :: wr →
  saveReplies w = Ok tt :: sr →
  let a' := set_wordpressId (Some (wp_id post)) a in
  ∃ w', publish id w
          = (Returned {| resp_article := a'; resp_wordpress := post |}, w') ∧
        trace w' = trace w ++ [WordpressAwaited (publishArticle (Some a)) (Ok post);
                               RepositorySave a' true] ∧
        articleTable w' = <[id := a']> (articleTable w) ∧
        wordpressReplies w' = wr ∧
        saveReplies w' = sr.
Proof.
  intros Hfind Hid Hwp Hsave a'.
  unfold publish, bind, articleRepository_findOne, gets, wordpressService.
  rewrite Hfind, Hwp. simpl.
  unfold articleRepository_save_detached, save_step. simpl.
  rewrite Hid, Hsave. simpl.
  refine (ex_intro _ _ (conj eq_refl _)). simpl.
  by rewrite <- app_assoc.
Qed.

(** C6: two calls of [publish] on an article stored under its own
    identifier, the adapter and the repository answering, make two requests
    to the adapter's create operation, one per call, and the post
    identifier answered to the second request replaces the first in
    the stored article's [wordpressId]. *)
Theorem publish_twice id w a p1 p2 wr sr :
  articleTable w !! id = Some a →
  article_id a = Some id →
  wordpressReplies w = Ok p1 :: Ok p2 :: wr →
  saveReplies w = Ok tt :: Ok tt :: sr →
  let a1 := set_wordpressId (Some (wp_id p1)) a in
  let a2 := set_wordpressId (Some (wp_id p2)) a in
  ∃ w1 w2,
    publish id w = (Returned {| resp_article := a1; resp_wordpress := p1 |}, w1) ∧
    publish id w1 = (Returned {| resp_article := a2; resp_wordpress := p2 |}, w2) ∧
    publish_calls (trace w2) = publish_calls (trace w) ++ [Some a; Some a1] ∧
    wordpress_calls (trace w2)
      = wordpress_calls (trace w) ++ [publishArticle (Some a); publishArticle (Some a1)] ∧
    (wordpressId <$> articleTable w1 !! id) = Some (Some (wp_id p1)) ∧
    (wordpressId <$> articleTable w2 !! id) = Some (Some (wp_id p2)).
Proof.
  intros Hfind Hid Hwp Hsave a1 a2.
  destruct (publish_once id w a p1 (Ok p2 :: wr) (Ok tt :: sr) Hfind Hid Hwp Hsave)
    as (w1 & Hrun1 & Htr1 & Htab1 & Hwp1 & Hsave1).
  assert (Hfind1 : articleTable w1 !! id = Some a1).
  { rewrite Htab1. apply lookup_insert_eq. }
  destruct (publish_once id w1 a1 p2 wr sr Hfind1 Hid Hwp1 Hsave1)
    as (w2 & Hrun2 & Htr2 & Htab2 & _ & _).
  exists w1, w2. split; [exact Hrun1|]. split; [exact Hrun2|].
  rewrite Htr2, Htr1, Htab2. rewrite !publish_calls_app, !wordpress_calls_app.
  simpl. rewrite <- !app_assoc. simpl.
  split; [done|]. split; [done|]. split.
  - by rewrite Hfind1.
  - by rewrite lookup_insert_eq.
Qed.

Lemma publish_twice_witness :
  ∃ w1 w2,
    publish "art-1" Sample.w0
      = (Returned {| resp_article := set_wordpressId (Some 41%Z) Sample.article1;
                     resp_wordpress := {| wp_id := 41 |} |}, w1) ∧
    publish "art-1" w1
      = (Returned {| resp_article := set_wordpressId (Some 42%Z) Sample.article1;
                     resp_wordpress := {| wp_id := 42 |} |}, w2) ∧
    publish_calls (trace w2)
      = publish_calls (trace Sample.w0)
          ++ [Some Sample.article1;
              Some (set_wordpressId (Some 41%Z) Sample.article1)] ∧
    wordpress_calls (trace w2)
      = wordpress_calls (trace Sample.w0)
          ++ [publishArticle (Some Sample.article1);
              publishArticle (Some (set_wordpressId (Some 41%Z) Sample.article1))] ∧
    (wordpressId <$> articleTable w1 !! "art-1") = Some (Some 41%Z) ∧
    (wordpressId <$> articleTable w2 !! "art-1") = Some (Some 42%Z).
Proof.
  apply (publish_twice "art-1" Sample.w0 Sample.article1
           {| wp_id := 41 |} {| wp_id := 42 |} [] []); reflexivity.
Defined.

End Published.

(** ** [create]: validation *)

Section CreateValidation.
Import ArticleService.

Lemma includes_elem_of (l : list string) s : includes l s = true ↔ s ∈ l.
Proof.
  unfold includes. rewrite existsb_exists. split.
  - intros (x & Hin & Heq). apply String.eqb_eq in Heq as ->.
    by apply list_elem_of_In.
  - intros Hin. exists s. split; [by apply list_elem_of_In | apply String.eqb_refl].
Qed.

Lemma validateFile_allowed E file w :
  mimetype file ∈ ALLOWED_FORMATS E → validateFile E file w = (Returned tt, w).
Proof.
  intros Hin. unfold validateFile.
  by rewrite (proj2 (includes_elem_of _ _) Hin).
Qed.

Lemma validateFile_refused E file w :
  mimetype file ∉ ALLOWED_FORMATS E →
  ∃ errors, errors ≠ [] ∧ validateFile E file w = (Thrown (ValidationErrors errors), w).
Proof.
  intros Hnot. unfold validateFile.
  destruct (includes (ALLOWED_FORMATS E) (mimetype file)) eqn:Hinc.
  - by apply includes_elem_of in Hinc.
  - simpl. eexists. split; [|reflexivity]. done.
Qed.

(** The test at the head of the method body. *)
Lemma authors_guard (l : list AuthorDTO) :
  (length l <? 1)%nat || existsb (λ a, (0 <? length (validateSync a))%nat) l = false
  ↔ l ≠ [] ∧ ∀ a, a ∈ l → validateSync a = [].
Proof.
  rewrite orb_false_iff. split.
  - intros [Hlen Hall]. split; [by destruct l|].
    intros a Ha. destruct (validateSync a) eqn:Hv; [done|].
    assert (Hex : existsb (λ a, (0 <? length (validateSync a))%nat) l = true).
    { apply existsb_exists. exists a. split; [by apply list_elem_of_In|].
      by rewrite Hv. }
    congruence.
  - intros [Hne Hall]. split; [by destruct l|].
    apply not_true_iff_false. intros Hex.
    apply existsb_exists in Hex as (a & Ha & Hlen).
    rewrite (Hall a) in Hlen; [done|]. by apply list_elem_of_In.
Qed.

(** X18: What the code does guarantee: an input that breaks a
    precondition makes [create] throw with the world untouched, hence
    without any call to the Drive adapter.  What is thrown is a list of
    [ValidationError] for the DTO's own annotations and for the file,
    and a plain [Error] for the authors. *)
Lemma create_rejects_invalid E articleDto file w :
  invalid_create_input E articleDto file →
  ∃ e, create E articleDto file w = (Thrown e, w) ∧
       (e = Error "" ∨ ∃ errors, errors ≠ [] ∧ e = ValidationErrors errors).
Proof.
  intros Hinvalid. unfold create, bind, validated.
  destruct (articleDtoErrors E articleDto) as [|x errs] eqn:Hdto.
  2:{ simpl. eexists. split; [done|]. right. eexists. split; [|reflexivity]. done. }
  simpl.
  destruct ((length (dto_authors articleDto) <? 1)%nat || _) eqn:Hguard.
  { eexists. split; [done|]. by left. }
  apply authors_guard in Hguard as [Hne Hall].
  destruct Hinvalid as [Hempty|[(a & Ha & Hbad)|Hmime]].
  - done.
  - by specialize (Hall a Ha).
  - destruct (validateFile_refused E file w Hmime) as (errors & Herr & ->).
    eexists. split; [done|]. right. eexists. split; [|reflexivity]. done.
Qed.

(** C2, as the code behaves: with a DTO that passes its own
    annotations and an allowed file, an empty author list, and likewise
    an author without a school, makes [create] throw [new Error()]: no
    [ValidationError], no list of violated constraints.  The world is
    untouched, so no Drive call was made; a refused MIME type does
    produce the list. *)
Theorem create_invalid_authors_plain_error :
  create Sample.E (Sample.dto []) Sample.pdf Sample.w0
    = (Thrown (Error ""), Sample.w0) ∧
  create Sample.E (Sample.dto [Sample.carolDto; Sample.badDto]) Sample.pdf Sample.w0
    = (Thrown (Error ""), Sample.w0) ∧
  validateSync Sample.badDto
    = [MkValidationError "school" [("isNotEmpty", "school should not be empty")] []] ∧
  ∃ errors,
    create Sample.E (Sample.dto [Sample.carolDto]) Sample.exe Sample.w0
      = (Thrown (ValidationErrors errors), Sample.w0).
Proof.
  split; [reflexivity|]. split; [reflexivity|]. split; [reflexivity|].
  eexists. reflexivity.
Qed.

End CreateValidation.

(** ** [create]: the steps of a run *)

Section CreateSteps.
Import ArticleService.

(** Resolving the authors reads the author table and changes nothing. *)
Lemma Promise_all_resolve (l : list Author) w :
  Promise_all (map findAuthorOrAuthor l) w
  = (Returned (map (resolve_author (authorTable w)) l), w).
Proof.
  induction l as [|x l IH]; simpl; [done|].
  unfold bind at 1. unfold findAuthorOrAuthor at 1.
  unfold bind at 1. unfold authorService_findByEmail, gets. simpl.
  unfold bind. rewrite IH. reflexivity.
Qed.

(** The permission loop: one detached call per author, in order; only
    the trace, the share script and the unhandled rejections move. *)
Lemma share_loop doc (l : list Author) w :
  ∃ u s,
    for_each l (λ author,
                  driveService_detached
                    (shareFile doc "writer" (author_email author))) w
    = (Returned tt,
       {| articleTable := articleTable w; authorTable := authorTable w;
          trace := trace w ++
                   map (λ author,
                          DriveDetached (shareFile doc "writer" (author_email author))) l;
          unhandled := unhandled w ++ u;
          driveReplies := driveReplies w; shareReplies := s;
          wordpressReplies := wordpressReplies w; saveReplies := saveReplies w;
          uuidSource := uuidSource w; uuidDrawn := uuidDrawn w |}).
Proof.
  revert w. induction l as [|x l IH]; intros w; simpl.
  - exists [], (shareReplies w). destruct w; unfold ret; simpl.
    by rewrite !app_nil_r.
  - unfold bind. unfold driveService_detached at 1.
    destruct (next_reply (shareReplies w)) as [[[]|reason] rest]; cbv beta iota.
    + destruct (IH (emit (DriveDetached (shareFile doc "writer" (author_email x)))
                      (set_shareReplies rest w))) as (u & s & ->).
      exists u, s. simpl. by rewrite <- app_assoc.
    + destruct (IH (add_unhandled reason
                      (emit (DriveDetached (shareFile doc "writer" (author_email x)))
                         (set_shareReplies rest w)))) as (u & s & ->).
      exists (reason :: u), s. simpl. by rewrite <- !app_assoc.
Qed.



Lemma find_same_email e table (x : Author) :
  List.find (same_email e) table = Some x → author_email x = e.
Proof.
  intros Hfind. apply find_some in Hfind as [_ Heq].
  unfold same_email in Heq. by apply bool_decide_eq_true in Heq.
Qed.

End CreateSteps.

(** The sample inputs used below meet the preconditions of [create]. *)
Ltac sample_input_valid :=
  split; [reflexivity|]; split; [discriminate|]; split;
  [ let a := fresh "a" in
    let Ha := fresh "Ha" in
    intros a Ha;
    repeat (apply elem_of_cons in Ha as [->|Ha]; [reflexivity|]);
    by apply elem_of_nil in Ha
  | simpl; by left ].

(** ** [create]: the successful run

    A valid input, a Drive adapter that answers the three awaited calls
    with [folder], [doc] and [grid], and a repository that accepts the
    save. *)

Section CreateSucceeds.
Import ArticleService.

Variables (E : Env) (articleDto : ArticleDTO) (file : MulterFile) (w : World).
Variables (folder doc grid : string).
Variables (dr : list (Reply string)) (sr : list (Reply unit)).

Hypothesis Hvalid : valid_create_input E articleDto file.
Hypothesis Hdrive : driveReplies w = Ok folder :: Ok doc :: Ok grid :: dr.
Hypothesis Hsave : saveReplies w = Ok tt :: sr.

Let fresh : string := uuidSource w (uuidDrawn w).
Let a : Article := created_article w articleDto folder doc grid.

Lemma create_success :
  ∃ w', create E articleDto file w = (Returned a, w') ∧
        articleTable w' = <[fresh := a]> (articleTable w) ∧
        authorTable w' = authorTable w ∧
        trace w' =
          trace w ++
          [LogInfo "Create a new article => ";
           DriveAwaited (createFolder (dto_title articleDto) (google_parent E))
             (Ok folder);
           DriveAwaited (createFile (dto_title articleDto) file
                           "application/vnd.google-apps.document" folder)
             (Ok doc);
           DriveAwaited (copy (google_marking_grid E) folder
                           ("Marking Grid for " +:+ dto_title articleDto))
             (Ok grid)] ++
          map (λ author, DriveDetached (shareFile doc "writer" (author_email author)))
            (authors a) ++
          [RepositorySave a true; Dispatched (article_created a)] ∧
        uuidDrawn w' = S (uuidDrawn w) ∧
        uuidSource w' = uuidSource w.
Proof.
  destruct Hvalid as (Hdto & Hne & Hall & Hmime).
  unfold create. unfold bind at 1. unfold validated. rewrite Hdto.
  unfold ret at 1. cbv beta iota.
  rewrite (proj2 (authors_guard _) (conj Hne Hall)).
  unfold bind at 1. rewrite (validateFile_allowed _ _ _ Hmime).
  unfold bind at 1. rewrite Promise_all_resolve.
  fold (resolved_authors w articleDto).
  unfold bind at 1. unfold log_info, modify.
  unfold bind at 1. unfold driveService at 1. cbn [driveReplies emit set_driveReplies].
  rewrite Hdrive. cbn [next_reply driveReplies emit set_driveReplies].
  unfold bind at 1. unfold driveService at 1.
  cbn [next_reply driveReplies emit set_driveReplies].
  unfold bind at 1. unfold driveService at 1.
  cbn [next_reply driveReplies emit set_driveReplies].
  unfold bind at 1.
  match goal with
  | |- context [for_each ?l ?body ?w0] =>
      destruct (share_loop doc l w0) as (u & s & Hloop)
  end.
  cbn [authors title set_markingGridId set_docId set_folderId Article_of_dto] in Hloop |- *.
  rewrite Hloop.
  unfold bind, uuid_v4, articleRepository_save, save_step, dispatch, modify, ret.
  cbn. rewrite Hsave. cbn.
  refine (ex_intro _ _ (conj eq_refl _)). cbn.
  split; [done|]. split; [done|]. split; [|done].
  rewrite <- !app_assoc. reflexivity.
Qed.


(** C4: on a valid input that goes through, an author submitted at
    position [i] whose email is that of a stored author [existing]
    appears at position [i] of the returned and stored article as the
    stored record itself, hence with the stored identifier and not
    with the submitted data; no other entry of the author list has
    that email, and the author table is what it was. *)
Theorem create_reuses_existing_author i d existing :
  dto_authors articleDto !! i = Some d →
  List.find (same_email (dto_email d)) (authorTable w) = Some existing →
  ∃ a w',
    create E articleDto file w = (Returned a, w') ∧
    articleTable w' !! uuidSource w (uuidDrawn w) = Some a ∧
    authors a !! i = Some existing ∧
    (author_id <$> authors a !! i) = Some (author_id existing) ∧
    (∀ x, x ∈ authors a → author_email x = dto_email d → x = existing) ∧
    length (authors a) = length (dto_authors articleDto) ∧
    authorTable w' = authorTable w.
Proof.
  intros Hi Hfind.
  destruct create_success as (w' & Hrun & Htab & Haut & _).
  exists a, w'.
  split; [exact Hrun|].
  split; [rewrite Htab; apply lookup_insert_eq|].
  assert (Hat : authors a !! i = Some existing).
  { simpl. unfold resolved_authors.
    change (map ?f ?l) with (f <$> l).
    rewrite !list_lookup_fmap, Hi. simpl.
    unfold resolve_author. simpl. by rewrite Hfind. }
  split; [exact Hat|]. split; [by rewrite Hat|]. split.
  { intros x Hx Hemail. simpl in Hx. unfold resolved_authors in Hx.
    change (map ?f ?l) with (f <$> l) in Hx.
    apply list_elem_of_fmap in Hx as (y & -> & Hy).
    apply list_elem_of_fmap in Hy as (d' & -> & _).
    unfold resolve_author in *. simpl in *.
    destruct (List.find (same_email (dto_email d')) (authorTable w))
      as [existing'|] eqn:Hfind'.
    - apply find_same_email in Hfind' as Hemail'.
      rewrite Hemail in Hemail'. rewrite <- Hemail', Hfind in Hfind'.
      by injection Hfind'.
    - simpl in Hemail. rewrite Hemail, Hfind in Hfind'. discriminate. }
  split; [|exact Haut].
  simpl. unfold resolved_authors. by rewrite !length_map.
Qed.

End CreateSucceeds.

Section CreateSucceedsAtSample.
Import ArticleService.



Lemma create_reuses_existing_author_witness :
  ∃ a w',
    create Sample.E (Sample.dto [Sample.daveDto; Sample.carolDto]) Sample.pdf Sample.w0
      = (Returned a, w') ∧
    articleTable w' !! Sample.uuids 0 = Some a ∧
    authors a !! 1 = Some Sample.carol ∧
    (author_id <$> authors a !! 1) = Some (Some "au-1") ∧
    (∀ x, x ∈ authors a → author_email x = Some "carol@example.org" → x = Sample.carol) ∧
    length (authors a) = 2 ∧
    authorTable w' = [Sample.carol].
Proof.
  apply (create_reuses_existing_author Sample.E
           (Sample.dto [Sample.daveDto; Sample.carolDto]) Sample.pdf Sample.w0
           "folder-9" "doc-9" "grid-9" [] [Ok tt]
           ltac:(sample_input_valid) eq_refl eq_refl
           1 Sample.carolDto Sample.carol); reflexivity.
Defined.

(** The submitted Carol is not what is stored with the article. *)
Example create_keeps_stored_carol :
  authors (created_article Sample.w0 (Sample.dto [Sample.daveDto; Sample.carolDto])
             "folder-9" "doc-9" "grid-9")
  = [Author_of_dto Sample.daveDto; Sample.carol].
Proof. reflexivity. Qed.

End CreateSucceedsAtSample.

(** ** [create] does not observe the permission calls *)

Section ShareBlind.
Import ArticleService.

Lemma share_equiv_refl w : share_equiv w w.
Proof. by repeat split. Qed.

Lemma share_equiv_set_shareReplies s1 s2 w :
  share_equiv (set_shareReplies s1 w) (set_shareReplies s2 w).
Proof. by repeat split. Qed.

Lemma share_blind_ret {A} (a : A) : share_blind (ret a).
Proof. intros w1 w2 Heq. by split. Qed.

Lemma share_blind_throw {A} e : share_blind (@throw A e).
Proof. intros w1 w2 Heq. by split. Qed.

Lemma share_blind_bind {A B} (m : Async A) (k : A → Async B) :
  share_blind m → (∀ a, share_blind (k a)) → share_blind (bind m k).
Proof.
  intros Hm Hk w1 w2 Heq. unfold bind.
  destruct (Hm w1 w2 Heq) as [Hout Hw].
  destruct (m w1) as [[a1|e1] w1'], (m w2) as [[a2|e2] w2'];
    simpl in Hout, Hw; simplify_eq.
  - by apply Hk.
  - by split.
Qed.

Lemma share_blind_emit e : share_blind (modify (emit e)).
Proof.
  intros w1 w2 (Ht & Ha & Htr & Hd & Hwp & Hs & Hu & Hn).
  split; [done|]. unfold modify, emit, share_equiv; simpl.
  rewrite Htr. by repeat split.
Qed.

Lemma share_blind_log_info message : share_blind (log_info message).
Proof. apply share_blind_emit. Qed.

Lemma share_blind_dispatch ev : share_blind (dispatch ev).
Proof. apply share_blind_emit. Qed.

Lemma share_blind_driveService call : share_blind (driveService call).
Proof.
  intros w1 w2 (Ht & Ha & Htr & Hd & Hwp & Hs & Hu & Hn).
  unfold driveService. rewrite Hd.
  destruct (next_reply (driveReplies w2)) as [[x|reason] rest];
    (split; [done|]); unfold share_equiv; simpl; rewrite Htr; by repeat split.
Qed.

(** The detached call returns whatever it is answered, and what it
    leaves behind is not looked at. *)
Lemma share_blind_detached call : share_blind (driveService_detached call).
Proof.
  intros w1 w2 (Ht & Ha & Htr & Hd & Hwp & Hs & Hu & Hn).
  unfold driveService_detached.
  destruct (next_reply (shareReplies w1)) as [[x1|reason1] rest1],
           (next_reply (shareReplies w2)) as [[x2|reason2] rest2];
    (split; [done|]); unfold share_equiv; simpl; rewrite Htr; by repeat split.
Qed.

Lemma share_blind_uuid : share_blind uuid_v4.
Proof.
  intros w1 w2 (Ht & Ha & Htr & Hd & Hwp & Hs & Hu & Hn).
  unfold uuid_v4, share_equiv; simpl. rewrite Hu, Hn. by repeat split.
Qed.

Lemma share_blind_save a : share_blind (articleRepository_save a).
Proof.
  intros w1 w2 (Ht & Ha & Htr & Hd & Hwp & Hs & Hu & Hn).
  unfold articleRepository_save, save_step.
  destruct (article_id a) as [k|].
  - rewrite Hs. destruct (next_reply (saveReplies w2)) as [[[]|reason] rest];
      (split; [done|]); unfold share_equiv; simpl; rewrite Htr, ?Ht; by repeat split.
  - split; [done|]. unfold share_equiv; simpl. rewrite Htr. by repeat split.
Qed.

Lemma share_blind_findAuthorOrAuthor author : share_blind (findAuthorOrAuthor author).
Proof.
  intros w1 w2 Heq. pose proof Heq as (Ht & Ha & _).
  unfold findAuthorOrAuthor, bind, authorService_findByEmail, gets, ret; simpl.
  rewrite Ha. by split.
Qed.

Lemma share_blind_Promise_all {A} (ps : list (Async A)) :
  (∀ p, p ∈ ps → share_blind p) → share_blind (Promise_all ps).
Proof.
  induction ps as [|p ps IH]; intros Hall; simpl.
  - apply share_blind_ret.
  - apply share_blind_bind; [apply Hall; by left|]. intros x.
    apply share_blind_bind; [|intros xs; apply share_blind_ret].
    apply IH. intros q Hq. apply Hall. by right.
Qed.

Lemma share_blind_resolve (l : list Author) :
  share_blind (Promise_all (map findAuthorOrAuthor l)).
Proof.
  apply share_blind_Promise_all. intros p Hp.
  change (map ?f ?l) with (f <$> l) in Hp.
  apply list_elem_of_fmap in Hp as (author & -> & _).
  apply share_blind_findAuthorOrAuthor.
Qed.

Lemma share_blind_for_each {A} (l : list A) (body : A → Async unit) :
  (∀ x, share_blind (body x)) → share_blind (for_each l body).
Proof.
  intros Hbody. induction l as [|x l IH]; simpl.
  - apply share_blind_ret.
  - apply share_blind_bind; [apply Hbody | intros _; apply IH].
Qed.

Lemma share_blind_validated E articleDto : share_blind (validated E articleDto).
Proof.
  unfold validated. destruct (articleDtoErrors E articleDto).
  - apply share_blind_ret.
  - apply share_blind_throw.
Qed.

Lemma share_blind_validateFile E file : share_blind (validateFile E file).
Proof.
  unfold validateFile.
  destruct (negb (includes (ALLOWED_FORMATS E) (mimetype file))); simpl.
  - apply share_blind_throw.
  - apply share_blind_ret.
Qed.

Create HintDb share_blind.
#[local] Hint Resolve share_blind_ret share_blind_throw share_blind_log_info
  share_blind_dispatch share_blind_driveService share_blind_detached
  share_blind_uuid share_blind_save share_blind_resolve share_blind_for_each
  share_blind_validated share_blind_validateFile : share_blind.

(** Step through the binds of a method body. *)
Ltac share_blind_steps :=
  repeat (apply share_blind_bind; [solve [auto with share_blind] | intros ?]);
  auto with share_blind.

Lemma share_blind_create E articleDto file : share_blind (create E articleDto file).
Proof.
  unfold create.
  apply share_blind_bind; [auto with share_blind | intros _].
  destruct (_ || _); share_blind_steps.
Qed.

(** C5: two runs of [create] from worlds that differ only in what the
    permission calls are answered ([shares1], [shares2]) have the same
    outcome, store the same articles and leave the same trace; on a
    valid input for which the three Drive calls and the save go
    through, both runs return the same article.  A rejected
    permission call is therefore neither thrown nor returned. *)
Theorem create_ignores_share_outcome E articleDto file w shares1 shares2 :
  let r1 := create E articleDto file (set_shareReplies shares1 w) in
  let r2 := create E articleDto file (set_shareReplies shares2 w) in
  r1.1 = r2.1 ∧
  articleTable r1.2 = articleTable r2.2 ∧
  trace r1.2 = trace r2.2 ∧
  (valid_create_input E articleDto file →
   ∀ folder doc grid dr sr,
     driveReplies w = Ok folder :: Ok doc :: Ok grid :: dr →
     saveReplies w = Ok tt :: sr →
     ∃ a, r1.1 = Returned a ∧ r2.1 = Returned a).
Proof.
  intros r1 r2.
  destruct (share_blind_create E articleDto file _ _
              (share_equiv_set_shareReplies shares1 shares2 w))
    as (Hout & Ht & _ & Htr & _).
  fold r1 r2 in Hout, Ht, Htr.
  split; [exact Hout|]. split; [exact Ht|]. split; [exact Htr|].
  intros Hvalid folder doc grid dr sr Hdrive Hsave.
  destruct (create_success E articleDto file (set_shareReplies shares1 w)
              folder doc grid dr sr Hvalid Hdrive Hsave) as (w' & Hrun & _).
  eexists. split.
  - unfold r1. rewrite Hrun. reflexivity.
  - rewrite <- Hout. unfold r1. rewrite Hrun. reflexivity.
Qed.

(** Every permission call granted against every permission call
    rejected: the same article comes back. *)
Lemma create_ignores_share_outcome_witness :
  let input := Sample.dto [Sample.carolDto; Sample.daveDto] in
  let r1 := create Sample.E input Sample.pdf
              (set_shareReplies [Ok tt; Ok tt] Sample.w0) in
  let r2 := create Sample.E input Sample.pdf
              (set_shareReplies [Failed "quota"; Failed "quota"] Sample.w0) in
  ∃ a, r1.1 = Returned a ∧ r2.1 = Returned a.
Proof.
  intros input r1 r2.
  apply (proj2 (proj2 (proj2
           (create_ignores_share_outcome Sample.E input Sample.pdf Sample.w0
              [Ok tt; Ok tt] [Failed "quota"; Failed "quota"])))
           ltac:(sample_input_valid)
           "folder-9" "doc-9" "grid-9" [] [Ok tt]); reflexivity.
Defined.

(** The two runs do differ, in what stays unhandled. *)
Example create_share_rejections_unhandled :
  let input := Sample.dto [Sample.carolDto; Sample.daveDto] in
  unhandled (create Sample.E input Sample.pdf
               (set_shareReplies [Ok tt; Ok tt] Sample.w0)).2 = [] ∧
  unhandled (create Sample.E input Sample.pdf
               (set_shareReplies [Failed "quota"; Failed "quota"] Sample.w0)).2
    = ["quota"; "quota"].
Proof. split; reflexivity. Qed.

End ShareBlind.

(** * Further properties of the service *)

(** ** What a save does to the table *)

Section SaveStep.
Import ArticleService.

Lemma save_step_table a w :
  articleTable (save_step a w).2 = articleTable w ∨
  ∃ k, article_id a = Some k ∧
       articleTable (save_step a w).2 = <[k := a]> (articleTable w).
Proof.
  unfold save_step. destruct (article_id a) as [k|]; [|by left].
  destruct (next_reply (saveReplies w)) as [[[]|reason] rest]; simpl.
  - right. by exists k.
  - by left.
Qed.

End SaveStep.

(** ** Reading the trace of a run *)

Section TraceReading.
Import ArticleService.

Lemma drive_calls_app t1 t2 :
  drive_calls (t1 ++ t2) = drive_calls t1 ++ drive_calls t2.
Proof. apply omap_app. Qed.

Lemma saves_app t1 t2 : saves (t1 ++ t2) = saves t1 ++ saves t2.
Proof. apply omap_app. Qed.

End TraceReading.

(** ** [publish] and [getPublished], further *)

Section PublishFurther.
Import ArticleService.

(** X3: [publish] for an identifier with no stored article does not stop at
    the lookup: it asks the WordPress adapter to publish [undefined],
    and only then fails, with the adapter's rejection or, when the
    adapter answers, with the [TypeError] of writing [wordpressId] to
    [undefined].  Nothing is saved. *)
Theorem publish_missing_article_calls_adapter id w :
  articleTable w !! id = None →
  let r := publish id w in
  wordpress_calls (trace r.2) = wordpress_calls (trace w) ++ [publishArticle None] ∧
  articleTable r.2 = articleTable w ∧
  saves (trace r.2) = saves (trace w) ∧
  (∀ post rest, wordpressReplies w = Ok post :: rest →
     r.1 = Thrown (TypeError "wordpressId")) ∧
  (∀ reason rest, wordpressReplies w = Failed reason :: rest →
     r.1 = Thrown (Rejection reason)).
Proof.
  intros Hfind r. unfold r, publish, bind, articleRepository_findOne, gets,
    wordpressService. rewrite Hfind.
  destruct (next_reply (wordpressReplies w)) as [[post|reason] rest] eqn:Hnext; simpl;
    rewrite wordpress_calls_app, saves_app; simpl; rewrite app_nil_r;
    (split; [done|]); (split; [done|]); (split; [done|]);
    split; intros x rest' Hreply; rewrite Hreply in Hnext; simpl in Hnext;
    by simplify_eq.
Qed.

Lemma publish_missing_article_calls_adapter_witness :
  let r := publish "no-such-article" Sample.w0 in
  wordpress_calls (trace r.2) = [publishArticle None] ∧
  r.1 = Thrown (TypeError "wordpressId").
Proof.
  intros r.
  destruct (publish_missing_article_calls_adapter "no-such-article" Sample.w0 eq_refl)
    as (Hcalls & _ & _ & Hok & _).
  split; [exact Hcalls|].
  apply (Hok {| wp_id := 41 |} [Ok {| wp_id := 42 |}]). reflexivity.
Defined.

(** X4: [publish] does not wait for its save.  When the adapter answers and
    the repository rejects the save, [publish] still returns the article
    with the new [wordpressId]; the stored row keeps the old one and the
    rejection is left unhandled. *)
Theorem publish_returns_despite_rejected_save id w a post wr reason sr :
  articleTable w !! id = Some a →
  article_id a = Some id →
  wordpressReplies w = Ok post :: wr →
  saveReplies w = Failed reason :: sr →
  let a' := set_wordpressId (Some (wp_id post)) a in
  ∃ w', publish id w
          = (Returned {| resp_article := a'; resp_wordpress := post |}, w') ∧
        articleTable w' = articleTable w ∧
        saves (trace w') = saves (trace w) ++ [(a', false)] ∧
        unhandled w' = unhandled w ++ [reason].
Proof.
  intros Hfind Hid Hwp Hsave a'.
  unfold publish, bind, articleRepository_findOne, gets, wordpressService.
  rewrite Hfind, Hwp. simpl.
  unfold articleRepository_save_detached, save_step. simpl.
  rewrite Hid, Hsave. simpl.
  refine (ex_intro _ _ (conj eq_refl _)). simpl.
  split; [done|]. split; [|done].
  rewrite !saves_app. simpl. by rewrite app_nil_r.
Qed.

Lemma publish_returns_despite_rejected_save_witness :
  let w := set_saveReplies [Failed "deadlock"] Sample.w0 in
  ∃ w', publish "art-1" w
          = (Returned {| resp_article := set_wordpressId (Some 41%Z) Sample.article1;
                         resp_wordpress := {| wp_id := 41 |} |}, w') ∧
        articleTable w' = articleTable w ∧
        saves (trace w') = saves (trace w)
                             ++ [(set_wordpressId (Some 41%Z) Sample.article1, false)] ∧
        unhandled w' = unhandled w ++ ["deadlock"].
Proof.
  apply (publish_returns_despite_rejected_save "art-1"
           (set_saveReplies [Failed "deadlock"] Sample.w0) Sample.article1
           {| wp_id := 41 |} [Ok {| wp_id := 42 |}] "deadlock" []); reflexivity.
Defined.

(** X5: A [publish] that goes through writes [wordpressId] and nothing
    else: the stored article keeps its identifier, title, Drive
    identifiers, authors and editors, the other rows are untouched, no
    request goes to the Drive adapter and no event is dispatched. *)
Theorem publish_changes_only_wordpressId id w a post wr sr :
  articleTable w !! id = Some a →
  article_id a = Some id →
  wordpressReplies w = Ok post :: wr →
  saveReplies w = Ok tt :: sr →
  ∃ a',
    articleTable (publish id w).2 !! id = Some a' ∧
    wordpressId a' = Some (wp_id post) ∧
    (article_id a', title a', folderId a', docId a', markingGridId a')
      = (article_id a, title a, folderId a, docId a, markingGridId a) ∧
    authors a' = authors a ∧
    editors a' = editors a ∧
    (∀ k, k ≠ id → articleTable (publish id w).2 !! k = articleTable w !! k) ∧
    drive_calls (trace (publish id w).2) = drive_calls (trace w) ∧
    dispatched (trace (publish id w).2) = dispatched (trace w).
Proof.
  intros Hfind Hid Hwp Hsave.
  destruct (publish_once id w a post wr sr Hfind Hid Hwp Hsave)
    as (w' & -> & Htr & Htab & _).
  exists (set_wordpressId (Some (wp_id post)) a). simpl.
  rewrite Htab, Htr. split; [apply lookup_insert_eq|].
  do 4 (split; [done|]).
  split; [intros k Hk; by apply lookup_insert_ne|].
  rewrite drive_calls_app, dispatched_app. simpl. by rewrite !app_nil_r.
Qed.

Lemma publish_changes_only_wordpressId_witness :
  ∃ a',
    articleTable (publish "art-1" Sample.w0).2 !! "art-1" = Some a' ∧
    wordpressId a' = Some 41%Z ∧
    (article_id a', title a', folderId a', docId a', markingGridId a')
      = (Some "art-1", "On Tides", Some "folder-1", Some "doc-1", Some "grid-1") ∧
    authors a' = [Sample.carol] ∧
    editors a' = [Sample.editorB] ∧
    (∀ k, k ≠ "art-1" →
       articleTable (publish "art-1" Sample.w0).2 !! k = articleTable Sample.w0 !! k) ∧
    drive_calls (trace (publish "art-1" Sample.w0).2) = drive_calls (trace Sample.w0) ∧
    dispatched (trace (publish "art-1" Sample.w0).2) = dispatched (trace Sample.w0).
Proof.
  apply (publish_changes_only_wordpressId "art-1" Sample.w0 Sample.article1
           {| wp_id := 41 |} [Ok {| wp_id := 42 |}] [Ok tt]); reflexivity.
Defined.

(** X6: [publish] then [getPublished]: the article that comes back, and that
    is handed to the adapter's [getArticle], carries the post identifier
    that [publishArticle] answered. *)
Theorem publish_then_getPublished id w a post post' wr sr :
  articleTable w !! id = Some a →
  article_id a = Some id →
  wordpressReplies w = Ok post :: Ok post' :: wr →
  saveReplies w = Ok tt :: sr →
  let a' := set_wordpressId (Some (wp_id post)) a in
  ∃ w1 w2,
    publish id w = (Returned {| resp_article := a'; resp_wordpress := post |}, w1) ∧
    getPublished id w1
      = (Returned (Some {| resp_article := a'; resp_wordpress := post' |}), w2) ∧
    wordpress_calls (trace w2)
      = wordpress_calls (trace w) ++ [publishArticle (Some a); getArticle a'] ∧
    articleTable w2 = articleTable w1.
Proof.
  intros Hfind Hid Hwp Hsave a'.
  destruct (publish_once id w a post (Ok post' :: wr) sr Hfind Hid Hwp Hsave)
    as (w1 & Hrun & Htr & Htab & Hwp1 & _).
  exists w1. unfold getPublished, bind, articleRepository_findOne, gets,
    wordpressService.
  rewrite Htab, lookup_insert_eq, Hwp1. simpl.
  refine (ex_intro _ _ (conj Hrun (conj eq_refl _))). simpl.
  split; [|by rewrite Htab].
  rewrite Htr, !wordpress_calls_app. simpl. by rewrite <- app_assoc.
Qed.

Lemma publish_then_getPublished_witness :
  let a' := set_wordpressId (Some 41%Z) Sample.article1 in
  ∃ w1 w2,
    publish "art-1" Sample.w0
      = (Returned {| resp_article := a'; resp_wordpress := {| wp_id := 41 |} |}, w1) ∧
    getPublished "art-1" w1
      = (Returned (Some {| resp_article := a';
                           resp_wordpress := {| wp_id := 42 |} |}), w2) ∧
    wordpress_calls (trace w2)
      = wordpress_calls (trace Sample.w0)
          ++ [publishArticle (Some Sample.article1); getArticle a'] ∧
    articleTable w2 = articleTable w1.
Proof.
  apply (publish_then_getPublished "art-1" Sample.w0 Sample.article1
           {| wp_id := 41 |} {| wp_id := 42 |} [] [Ok tt]); reflexivity.
Defined.

(** X7: [getPublished] only reads: whatever the identifier and the adapter's
    answer, the article table is what it was, nothing is saved, no
    event is dispatched, no request goes to the Drive adapter, and at
    most one goes to the WordPress adapter. *)
Theorem getPublished_reads_only id w :
  let r := getPublished id w in
  articleTable r.2 = articleTable w ∧
  saves (trace r.2) = saves (trace w) ∧
  dispatched (trace r.2) = dispatched (trace w) ∧
  drive_calls (trace r.2) = drive_calls (trace w) ∧
  ∃ calls, wordpress_calls (trace r.2) = wordpress_calls (trace w) ++ calls ∧
           (length calls ≤ 1)%nat.
Proof.
  intros r. unfold r, getPublished, bind, articleRepository_findOne, gets,
    wordpressService.
  destruct (articleTable w !! id) as [a|]; simpl.
  - destruct (next_reply (wordpressReplies w)) as [[post|reason] rest]; simpl;
      rewrite saves_app, dispatched_app, drive_calls_app, wordpress_calls_app;
      simpl; rewrite !app_nil_r; repeat (split; [done|]);
      exists [getArticle a]; by split.
  - repeat (split; [done|]). exists []. split; [by rewrite app_nil_r | simpl; lia].
Qed.

End PublishFurther.

(** ** [assign], further *)

Section AssignFurther.
Import ArticleService.

Lemma sublist_List_filter {A} (p : A → bool) (l : list A) :
  sublist (List.filter p l) l.
Proof.
  induction l as [|x l IH]; simpl; [constructor|].
  destruct (p x); by constructor.
Qed.

Lemma elem_of_List_filter {A} (p : A → bool) (l : list A) x :
  x ∈ List.filter p l ↔ x ∈ l ∧ p x = true.
Proof. rewrite !list_elem_of_In. apply filter_In. Qed.

Lemma filter_present_nil {A} (p : A → bool) (l : list A) :
  (∀ x, x ∈ l → p x = false) → List.filter p l = [].
Proof.
  induction l as [|x l IH]; intros Hall; simpl; [done|].
  rewrite (Hall x) by by left. apply IH. intros y Hy. apply Hall. by right.
Qed.

Lemma assigned_by_id_spec (a : Article) e :
  assigned_by_id a e = true ↔ already_assigned a e.
Proof.
  unfold assigned_by_id, already_assigned. rewrite existsb_exists. split.
  - intros (e' & He' & Heq). exists e'. split; [by apply list_elem_of_In|].
    by apply String.eqb_eq.
  - intros (e' & He' & Heq). exists e'. split; [by apply list_elem_of_In|].
    by apply String.eqb_eq.
Qed.

Lemma filter_not_existing_ordinary (a : Article) (eds : list Editor) :
  (∀ e, e ∈ eds → editor_id e ∉ Object_prototype) →
  (∀ e', e' ∈ editors a → editor_id e' ≠ "__proto__") →
  List.filter (not_existing (existing_editors (editors a))) eds
  = List.filter (λ e, negb (assigned_by_id a e)) eds.
Proof.
  intros Hord Hproto. induction eds as [|x eds IH]; simpl; [done|].
  rewrite IH by (intros e He; apply Hord; by right).
  rewrite (not_existing_ordinary (editors a) x); [done| |done].
  apply not_true_iff_false. rewrite includes_elem_of. apply Hord. by left.
Qed.

(** X8: [assign] on a stored article, the save going through, when the
    identifiers of the incoming editors are not property names of
    [Object.prototype] and no editor of the article has the identifier
    "__proto__": the editors of the returned and stored article are the
    former editors followed by exactly the incoming editors whose
    identifier no former editor has, in the order and with the
    multiplicity of the input; one [article.assigned] event is
    dispatched for each of them, in that order, each carrying the
    updated article. *)
Theorem assign_appends_new_editors_in_order id eds rm w a sr :
  articleTable w !! id = Some a →
  article_id a = Some id →
  saveReplies w = Ok tt :: sr →
  (∀ e, e ∈ eds → editor_id e ∉ Object_prototype) →
  (∀ e', e' ∈ editors a → editor_id e' ≠ "__proto__") →
  let added := List.filter (λ e, negb (assigned_by_id a e)) eds in
  ∃ a' w',
    assign id eds rm w = (Returned (Some a'), w') ∧
    editors a' = editors a ++ added ∧
    articleTable w' !! id = Some a' ∧
    dispatched (trace w') = dispatched (trace w) ++ map (article_assigned a') added ∧
    assigned_editors (trace w') = assigned_editors (trace w) ++ added.
Proof.
  intros Hfind Hid Hsave Hord Hproto added.
  rewrite (assign_found _ _ _ _ _ Hfind).
  rewrite (filter_not_existing_ordinary a eds Hord Hproto). fold added.
  set (a' := set_editors _ a).
  exists a'. unfold save_step. simpl. rewrite Hid, Hsave. simpl.
  refine (ex_intro _ _ (conj eq_refl _)). simpl.
  split; [done|]. split; [apply lookup_insert_eq|].
  rewrite !dispatched_app, !assigned_editors_app.
  rewrite dispatched_of_events, assigned_editors_events. simpl.
  by rewrite !app_nil_r.
Qed.

Lemma assign_appends_new_editors_in_order_witness :
  ∃ a' w',
    assign "art-1" [Sample.editorA; Sample.editorB; Sample.editorA] false Sample.w0
      = (Returned (Some a'), w') ∧
    editors a' = [Sample.editorB] ++ [Sample.editorA; Sample.editorA] ∧
    articleTable w' !! "art-1" = Some a' ∧
    dispatched (trace w')
      = dispatched (trace Sample.w0)
          ++ map (article_assigned a') [Sample.editorA; Sample.editorA] ∧
    assigned_editors (trace w')
      = assigned_editors (trace Sample.w0) ++ [Sample.editorA; Sample.editorA].
Proof.
  apply (assign_appends_new_editors_in_order "art-1"
           [Sample.editorA; Sample.editorB; Sample.editorA] false Sample.w0
           Sample.article1 [Ok tt]); try reflexivity.
  - intros e He Hin.
    repeat (apply elem_of_cons in He as [->|He];
            [repeat (apply elem_of_cons in Hin as [Hin|Hin]; [discriminate|]);
             by apply elem_of_nil in Hin |]).
    by apply elem_of_nil in He.
  - intros e' He'. apply list_elem_of_singleton in He' as ->. discriminate.
Defined.

(** An editor whose identifier names a property of [Object.prototype]
    is taken to be assigned already. *)
Example assign_skips_inherited_name :
  let constructor :=
    {| editor_id := "constructor"; editor_name := "Con"; editor_email := "con@example.org" |} in
  (assign "art-1" [constructor] false Sample.w0).1 = Returned (Some Sample.article1) ∧
  dispatched (trace (assign "art-1" [constructor] false Sample.w0).2) = [].
Proof. split; reflexivity. Qed.

(** X9: [assign] never removes an editor, also when it is called with
    [remove = true]: whatever the input and whether or not the save goes
    through, the article stored afterwards has the former editors as
    the head of its editor list and is otherwise what it was. *)
Theorem assign_never_removes id eds rm w a :
  articleTable w !! id = Some a →
  ∃ a', articleTable (assign id eds rm w).2 !! id = Some a' ∧
        editors a `prefix_of` editors a' ∧
        set_editors (editors a) a' = a.
Proof.
  intros Hfind. rewrite (assign_found _ _ _ _ _ Hfind).
  set (added := List.filter _ eds). set (a' := set_editors _ a).
  assert (Ha : set_editors (editors a) a = a) by by destruct a.
  destruct (save_step a' (emit (LogInfo "Find one article") w))
    as [[[]|r] w1] eqn:Hstep;
    pose proof (save_step_table a' (emit (LogInfo "Find one article") w)) as Htab;
    rewrite Hstep in Htab; simpl in Htab |- *.
  - destruct Htab as [->|(k & Hk & ->)].
    + exists a. rewrite Hfind. split; [done|]. split; [done|exact Ha].
    + destruct (decide (k = id)) as [->|Hne].
      * exists a'. rewrite lookup_insert_eq. split; [done|].
        split; [by apply prefix_app_r | exact Ha].
      * exists a. rewrite lookup_insert_ne by done.
        split; [done|]. split; [done|exact Ha].
  - destruct Htab as [->|(k & Hk & ->)].
    + exists a. rewrite Hfind. split; [done|]. split; [done|exact Ha].
    + destruct (decide (k = id)) as [->|Hne].
      * exists a'. rewrite lookup_insert_eq. split; [done|].
        split; [by apply prefix_app_r | exact Ha].
      * exists a. rewrite lookup_insert_ne by done.
        split; [done|]. split; [done|exact Ha].
Qed.

Lemma assign_never_removes_witness :
  ∃ a', articleTable (assign "art-1" [Sample.editorA] true Sample.w0).2 !! "art-1"
          = Some a' ∧
        editors Sample.article1 `prefix_of` editors a' ∧
        set_editors (editors Sample.article1) a' = Sample.article1.
Proof.
  apply (assign_never_removes "art-1" [Sample.editorA] true Sample.w0 Sample.article1).
  reflexivity.
Defined.

(** X10: [assign] for an identifier with no stored article returns
    [undefined] and raises nothing; nothing is saved and no event is
    dispatched. *)
Theorem assign_missing_article_returns_undefined id eds rm w :
  articleTable w !! id = None →
  let r := assign id eds rm w in
  r.1 = Returned None ∧
  articleTable r.2 = articleTable w ∧
  saves (trace r.2) = saves (trace w) ∧
  dispatched (trace r.2) = dispatched (trace w).
Proof.
  intros Hfind r. unfold r. rewrite (assign_missing _ _ _ _ Hfind). simpl.
  rewrite saves_app, dispatched_app. simpl. by rewrite !app_nil_r.
Qed.

Lemma assign_missing_article_returns_undefined_witness :
  let r := assign "no-such-article" [Sample.editorA] false Sample.w0 in
  r.1 = Returned None ∧
  articleTable r.2 = articleTable Sample.w0 ∧
  saves (trace r.2) = saves (trace Sample.w0) ∧
  dispatched (trace r.2) = dispatched (trace Sample.w0).
Proof.
  apply (assign_missing_article_returns_undefined "no-such-article"
           [Sample.editorA] false Sample.w0).
  reflexivity.
Defined.

(** X11: When the repository rejects the save, [assign] throws that
    rejection: the table is what it was, so the new editors are not
    stored, and no event is dispatched. *)
Theorem assign_rejected_save_throws id eds rm w a reason sr :
  articleTable w !! id = Some a →
  article_id a = Some id →
  saveReplies w = Failed reason :: sr →
  let r := assign id eds rm w in
  r.1 = Thrown (Rejection reason) ∧
  articleTable r.2 = articleTable w ∧
  dispatched (trace r.2) = dispatched (trace w).
Proof.
  intros Hfind Hid Hsave r. unfold r.
  rewrite (assign_found _ _ _ _ _ Hfind).
  unfold save_step. simpl. rewrite Hid, Hsave. simpl.
  rewrite !dispatched_app. simpl. by rewrite !app_nil_r.
Qed.

Lemma assign_rejected_save_throws_witness :
  let w := set_saveReplies [Failed "deadlock"] Sample.w0 in
  let r := assign "art-1" [Sample.editorA] false w in
  r.1 = Thrown (Rejection "deadlock") ∧
  articleTable r.2 = articleTable w ∧
  dispatched (trace r.2) = dispatched (trace w).
Proof.
  apply (assign_rejected_save_throws "art-1" [Sample.editorA] false
           (set_saveReplies [Failed "deadlock"] Sample.w0) Sample.article1
           "deadlock" []); reflexivity.
Defined.

(** X12: Calling [assign] a second time with the same editors changes
    nothing more: after a first call that went through, the second call
    dispatches no event and stores the article that the first one
    stored, even when the list names an editor twice. *)
Theorem assign_again_is_noop id eds rm w a sr :
  articleTable w !! id = Some a →
  article_id a = Some id →
  saveReplies w = Ok tt :: sr →
  ∃ a' w1,
    assign id eds rm w = (Returned (Some a'), w1) ∧
    let r := assign id eds rm w1 in
    dispatched (trace r.2) = dispatched (trace w1) ∧
    articleTable r.2 = articleTable w1 ∧
    articleTable r.2 !! id = Some a' ∧
    (r.1 = Returned (Some a') ∨ ∃ reason, r.1 = Thrown (Rejection reason)).
Proof.
  intros Hfind Hid Hsave.
  pose proof (assign_found id eds rm w a Hfind) as Hrun. simpl in Hrun.
  set (added := List.filter (not_existing (existing_editors (editors a))) eds) in *.
  set (a' := set_editors (editors a ++ added) a) in *.
  unfold save_step in Hrun. simpl in Hrun. rewrite Hid, Hsave in Hrun. simpl in Hrun.
  exists a'. eexists. split; [exact Hrun|].
  match goal with |- context [assign id eds rm ?w0] => set (w1 := w0) end.
  assert (Hfind1 : articleTable w1 !! id = Some a') by apply lookup_insert_eq.
  assert (Hall : ∀ e, e ∈ eds →
                   not_existing (existing_editors (editors a')) e = false).
  { intros e He. simpl.
    destruct (not_existing (existing_editors (editors a)) e) eqn:Hnew.
    - apply (not_existing_member _ e e); [|done]. apply elem_of_app. right.
      apply elem_of_List_filter. by split.
    - apply not_existing_stays; [|done].
      intros x Hx. apply elem_of_List_filter in Hx as [_ Hx].
      by apply not_existing_not_proto in Hx. }
  simpl. rewrite (assign_found _ _ _ _ _ Hfind1).
  rewrite (filter_present_nil _ _ Hall), set_editors_same.
  unfold save_step. change (article_id a') with (article_id a). rewrite Hid.
  cbn [emit saveReplies].
  destruct (next_reply (saveReplies w1)) as [[[]|reason] rest]; simpl;
    rewrite ?dispatched_app; simpl; rewrite ?app_nil_r.
  - split; [done|]. rewrite insert_insert_eq.
    split; [done|]. split; [apply lookup_insert_eq | by left].
  - split; [done|]. split; [done|].
    split; [apply lookup_insert_eq | right; by eexists].
Qed.

Lemma assign_again_is_noop_witness :
  ∃ a' w1,
    assign "art-1" [Sample.editorA; Sample.editorA] false Sample.w0
      = (Returned (Some a'), w1) ∧
    let r := assign "art-1" [Sample.editorA; Sample.editorA] false w1 in
    dispatched (trace r.2) = dispatched (trace w1) ∧
    articleTable r.2 = articleTable w1 ∧
    articleTable r.2 !! "art-1" = Some a' ∧
    (r.1 = Returned (Some a') ∨ ∃ reason, r.1 = Thrown (Rejection reason)).
Proof.
  apply (assign_again_is_noop "art-1" [Sample.editorA; Sample.editorA] false
           Sample.w0 Sample.article1 [Ok tt]); reflexivity.
Defined.

End AssignFurther.

(** ** [create]: nothing is stored or announced unless the whole run succeeds *)

Section CreateAllOrNothing.
Import ArticleService.

Lemma quiet_ret {A} (a : A) : quiet (ret a).
Proof. by intros w. Qed.

Lemma quiet_throw {A} e : quiet (@throw A e).
Proof. by intros w. Qed.

Lemma quiet_bind {A B} (m : Async A) (k : A → Async B) :
  quiet m → (∀ a, quiet (k a)) → quiet (bind m k).
Proof.
  intros Hm Hk w. unfold bind.
  destruct (Hm w) as (Ht & Hd & Hs).
  destruct (m w) as [[a|e] w1]; simpl in *.
  - destruct (Hk a w1) as (Ht' & Hd' & Hs').
    by rewrite Ht', Hd', Hs'.
  - done.
Qed.

Lemma quiet_log_info message : quiet (log_info message).
Proof.
  intros w. unfold log_info, modify; simpl.
  rewrite dispatched_app, saves_app. simpl. by rewrite !app_nil_r.
Qed.

Lemma quiet_driveService call : quiet (driveService call).
Proof.
  intros w. unfold driveService.
  destruct (next_reply (driveReplies w)) as [[x|reason] rest]; simpl;
    rewrite dispatched_app, saves_app; simpl; by rewrite !app_nil_r.
Qed.

Lemma quiet_detached call : quiet (driveService_detached call).
Proof.
  intros w. unfold driveService_detached.
  destruct (next_reply (shareReplies w)) as [[x|reason] rest]; simpl;
    rewrite dispatched_app, saves_app; simpl; by rewrite !app_nil_r.
Qed.

Lemma quiet_uuid : quiet uuid_v4.
Proof. by intros w. Qed.

Lemma quiet_resolve (l : list Author) :
  quiet (Promise_all (map findAuthorOrAuthor l)).
Proof. intros w. by rewrite Promise_all_resolve. Qed.

Lemma quiet_for_each {A} (l : list A) (body : A → Async unit) :
  (∀ x, quiet (body x)) → quiet (for_each l body).
Proof.
  intros Hbody. induction l as [|x l IH]; simpl.
  - apply quiet_ret.
  - apply quiet_bind; [apply Hbody | intros _; apply IH].
Qed.

Lemma quiet_validated E articleDto : quiet (validated E articleDto).
Proof.
  unfold validated. destruct (articleDtoErrors E articleDto).
  - apply quiet_ret.
  - apply quiet_throw.
Qed.

Lemma quiet_validateFile E file : quiet (validateFile E file).
Proof.
  unfold validateFile.
  destruct (negb (includes (ALLOWED_FORMATS E) (mimetype file))); simpl.
  - apply quiet_throw.
  - apply quiet_ret.
Qed.

Create HintDb quiet.
#[local] Hint Resolve quiet_ret quiet_throw quiet_log_info quiet_driveService
  quiet_detached quiet_uuid quiet_resolve quiet_for_each quiet_validated
  quiet_validateFile : quiet.

Lemma stored_after_quiet {A} (m : Async A) (k : A → Async Article) w :
  quiet m →
  (∀ x w', stored_and_announced w' (k x w')) →
  stored_and_announced w (bind m k w).
Proof.
  intros Hm Hk. unfold bind.
  destruct (Hm w) as (Ht & Hd & Hs).
  destruct (m w) as [[x|e] w1]; simpl in *.
  - specialize (Hk x w1). unfold stored_and_announced in *.
    destruct (k x w1).1; by rewrite <- Ht, <- Hd, <- ?Hs.
  - by split.
Qed.

Lemma stored_by_save a w :
  stored_and_announced w
    (bind (articleRepository_save a)
       (λ newArticle, bind (dispatch (article_created newArticle))
                        (λ _, ret newArticle)) w).
Proof.
  unfold bind, articleRepository_save, save_step, dispatch, modify, ret,
    stored_and_announced.
  destruct (article_id a) as [k|] eqn:Hk; simpl.
  - destruct (next_reply (saveReplies w)) as [[[]|reason] rest]; simpl.
    + exists k. rewrite !saves_app, !dispatched_app. simpl.
      by rewrite !app_nil_r.
    + rewrite dispatched_app. simpl. by rewrite app_nil_r.
  - rewrite dispatched_app. simpl. by rewrite app_nil_r.
Qed.

(** Step through the body of [create]: every step before the save is
    quiet. *)
Ltac settle_create :=
  unfold ArticleService.create;
  apply stored_after_quiet; [auto with quiet | intros _ ?];
  destruct (_ || _); [by split|];
  repeat (apply stored_after_quiet; [solve [auto with quiet] | intros ? ?]);
  apply stored_by_save.

(** X13: Whatever the input and whatever the collaborators answer: when
    [create] returns an article, that article is stored under its
    identifier by one save and one [article.created] event is dispatched
    for it; when [create] throws (validation, a rejected Drive call, a
    rejected save), the article table is what it was and no event is
    dispatched. *)
Theorem create_stores_and_announces_or_nothing E articleDto file w :
  let r := create E articleDto file w in
  match r.1 with
  | Returned a =>
      ∃ k, article_id a = Some k ∧
           articleTable r.2 = <[k := a]> (articleTable w) ∧
           saves (trace r.2) = saves (trace w) ++ [(a, true)] ∧
           dispatched (trace r.2) = dispatched (trace w) ++ [article_created a]
  | Thrown _ =>
      articleTable r.2 = articleTable w ∧
      dispatched (trace r.2) = dispatched (trace w)
  end.
Proof.
  intros r. change (stored_and_announced w r). unfold r. clear r.
  settle_create.
Qed.

End CreateAllOrNothing.

(** ** [create]: rejected calls *)

(** Run [create] on a valid input up to the first Drive call. *)
Ltac enter_create Hdto Hne Hall Hmime :=
  unfold ArticleService.create; unfold bind at 1; unfold validated; rewrite Hdto;
  unfold ret at 1; cbv beta iota;
  rewrite (proj2 (authors_guard _) (conj Hne Hall));
  unfold bind at 1; rewrite (validateFile_allowed _ _ _ Hmime);
  unfold bind at 1; rewrite Promise_all_resolve;
  unfold bind at 1; unfold log_info, modify.

(** One awaited Drive call, answered as the hypothesis [Hdrive] says. *)
Ltac drive_step :=
  unfold bind at 1; unfold driveService at 1;
  cbn [next_reply driveReplies emit set_driveReplies].

Section CreateRejections.
Import ArticleService.

Lemma create_drive_rejected_run E articleDto file w oks reason dr :
  valid_create_input E articleDto file →
  (length oks < 3)%nat →
  driveReplies w = map Ok oks ++ Failed reason :: dr →
  ∃ w', create E articleDto file w = (Thrown (Rejection reason), w') ∧
        trace w' =
          trace w ++ LogInfo "Create a new article => " ::
            zip_with DriveAwaited
              (create_drive_requests E articleDto file (default "" (head oks)))
              (map Ok oks ++ [Failed reason]) ∧
        articleTable w' = articleTable w ∧
        uuidDrawn w' = uuidDrawn w.
Proof.
  intros (Hdto & Hne & Hall & Hmime) Hlen Hdrive.
  destruct oks as [|folder [|doc [|grid oks]]]; simpl in Hlen, Hdrive; [| | |lia];
    enter_create Hdto Hne Hall Hmime;
    unfold bind at 1; unfold driveService at 1;
    cbn [driveReplies emit set_driveReplies]; rewrite Hdrive;
    cbn [next_reply driveReplies emit set_driveReplies];
    repeat drive_step;
    refine (ex_intro _ _ (conj eq_refl _)); cbn;
    rewrite <- ?app_assoc; done.
Qed.

(** X14: The awaited Drive calls of [create] depend on one another: when the
    adapter answers the first [length oks] of them (fewer than three)
    and rejects the next, [create] throws that rejection as it is and
    stops there.  The calls already answered are not undone: no further
    Drive request is made, no identifier is drawn, nothing is saved and
    no event is dispatched. *)
Theorem create_aborts_at_rejected_drive_call E articleDto file w oks reason dr :
  valid_create_input E articleDto file →
  (length oks < 3)%nat →
  driveReplies w = map Ok oks ++ Failed reason :: dr →
  let r := create E articleDto file w in
  r.1 = Thrown (Rejection reason) ∧
  drive_calls (trace r.2)
    = drive_calls (trace w)
        ++ take (S (length oks))
             (create_drive_requests E articleDto file (default "" (head oks))) ∧
  saves (trace r.2) = saves (trace w) ∧
  dispatched (trace r.2) = dispatched (trace w) ∧
  articleTable r.2 = articleTable w ∧
  uuidDrawn r.2 = uuidDrawn w.
Proof.
  intros Hvalid Hlen Hdrive r. unfold r. clear r.
  destruct (create_drive_rejected_run E articleDto file w oks reason dr
              Hvalid Hlen Hdrive) as (w' & -> & Htr & Htab & Hn).
  simpl. rewrite Htr.
  rewrite drive_calls_app, saves_app, dispatched_app.
  split; [done|].
  destruct oks as [|folder [|doc [|grid oks]]]; simpl in Hlen |- *; [| | |lia];
    by rewrite ?app_nil_r.
Qed.

Lemma create_aborts_at_rejected_drive_call_witness :
  let w := set_driveReplies [Ok "folder-9"; Failed "quota"] Sample.w0 in
  let r := create Sample.E (Sample.dto [Sample.carolDto]) Sample.pdf w in
  r.1 = Thrown (Rejection "quota") ∧
  drive_calls (trace r.2)
    = drive_calls (trace w)
        ++ [createFolder "On Waves" "parent-folder";
            createFile "On Waves" Sample.pdf
              "application/vnd.google-apps.document" "folder-9"] ∧
  saves (trace r.2) = saves (trace w) ∧
  dispatched (trace r.2) = dispatched (trace w) ∧
  articleTable r.2 = articleTable w ∧
  uuidDrawn r.2 = uuidDrawn w.
Proof.
  apply (create_aborts_at_rejected_drive_call Sample.E (Sample.dto [Sample.carolDto])
           Sample.pdf (set_driveReplies [Ok "folder-9"; Failed "quota"] Sample.w0)
           ["folder-9"] "quota" []).
  - sample_input_valid.
  - simpl. lia.
  - reflexivity.
Defined.

End CreateRejections.

(** ** [create]: permissions, new authors, and what a later failure leaves behind *)

Section CreateFurther.
Import ArticleService.

Variables (E : Env) (articleDto : ArticleDTO) (file : MulterFile) (w : World).
Variables (folder doc grid : string) (dr : list (Reply string)).

Hypothesis Hvalid : valid_create_input E articleDto file.
Hypothesis Hdrive : driveReplies w = Ok folder :: Ok doc :: Ok grid :: dr.

Let a : Article := created_article w articleDto folder doc grid.

Lemma drive_calls_detached {A} (f : A → DriveCall) (l : list A) :
  drive_calls (map (λ x, DriveDetached (f x)) l) = map f l.
Proof. induction l as [|x l IH]; simpl; [done|]. by rewrite IH. Qed.

Lemma saves_detached {A} (f : A → DriveCall) (l : list A) :
  saves (map (λ x, DriveDetached (f x)) l) = [].
Proof. induction l as [|x l IH]; simpl; done. Qed.

Lemma dispatched_detached {A} (f : A → DriveCall) (l : list A) :
  dispatched (map (λ x, DriveDetached (f x)) l) = [].
Proof. induction l as [|x l IH]; simpl; done. Qed.

(** The run of [create] when the three Drive calls are answered and the
    save is rejected. *)
Lemma create_save_rejected_run reason sr :
  saveReplies w = Failed reason :: sr →
  ∃ w', create E articleDto file w = (Thrown (Rejection reason), w') ∧
        articleTable w' = articleTable w ∧
        uuidDrawn w' = S (uuidDrawn w) ∧
        trace w' =
          trace w ++
          LogInfo "Create a new article => " ::
          zip_with DriveAwaited (create_drive_requests E articleDto file folder)
            [Ok folder; Ok doc; Ok grid] ++
          map (λ author, DriveDetached (shareFile doc "writer" (author_email author)))
            (authors a) ++
          [RepositorySave a false].
Proof.
  intros Hsave. destruct Hvalid as (Hdto & Hne & Hall & Hmime).
  enter_create Hdto Hne Hall Hmime.
  fold (resolved_authors w articleDto).
  unfold bind at 1. unfold driveService at 1. cbn [driveReplies emit set_driveReplies].
  rewrite Hdrive. cbn [next_reply driveReplies emit set_driveReplies].
  do 2 drive_step. unfold bind at 1.
  match goal with
  | |- context [for_each ?l ?body ?w0] =>
      destruct (share_loop doc l w0) as (u & s & Hloop)
  end.
  cbn [authors title set_markingGridId set_docId set_folderId Article_of_dto] in Hloop |- *.
  rewrite Hloop.
  unfold bind, uuid_v4, articleRepository_save, save_step, dispatch, modify, ret.
  cbn. rewrite Hsave. cbn.
  refine (ex_intro _ _ (conj eq_refl _)). cbn.
  split; [done|]. split; [done|].
  rewrite <- !app_assoc. reflexivity.
Qed.

(** X15: On a valid input that goes through, the requests to the Drive
    adapter are, in this order: the folder, the document inside that
    folder, the copy of the marking grid into that folder, and then one
    permission request per author of the article, in the order of the
    author list, each for the role "writer" on the new document and for
    the email of the resolved author. *)
Theorem create_grants_one_permission_per_author sr :
  saveReplies w = Ok tt :: sr →
  ∃ w', create E articleDto file w = (Returned a, w') ∧
        drive_calls (trace w')
          = drive_calls (trace w)
              ++ create_drive_requests E articleDto file folder
              ++ map (λ author, shareFile doc "writer" (author_email author))
                   (resolved_authors w articleDto) ∧
        length (resolved_authors w articleDto) = length (dto_authors articleDto).
Proof.
  intros Hsave.
  destruct (create_success E articleDto file w folder doc grid dr sr
              Hvalid Hdrive Hsave) as (w' & Hrun & _ & _ & Htr & _).
  exists w'. split; [exact Hrun|]. split.
  - rewrite Htr, !drive_calls_app, drive_calls_detached. simpl.
    by rewrite app_nil_r.
  - unfold resolved_authors. by rewrite !length_map.
Qed.


(** X17: When the three Drive calls are answered and the repository then
    rejects the save, [create] throws that rejection: no article is
    stored and no event is dispatched, but the folder, the document and
    the marking grid exist and the permission requests were already
    made; none of them is undone. *)
Theorem create_rejected_save_leaves_documents reason sr :
  saveReplies w = Failed reason :: sr →
  let r := create E articleDto file w in
  r.1 = Thrown (Rejection reason) ∧
  articleTable r.2 = articleTable w ∧
  dispatched (trace r.2) = dispatched (trace w) ∧
  saves (trace r.2) = saves (trace w) ++ [(a, false)] ∧
  drive_calls (trace r.2)
    = drive_calls (trace w)
        ++ create_drive_requests E articleDto file folder
        ++ map (λ author, shareFile doc "writer" (author_email author))
             (resolved_authors w articleDto).
Proof.
  intros Hsave r. unfold r. clear r.
  destruct (create_save_rejected_run reason sr Hsave)
    as (w' & -> & Htab & _ & Htr).
  simpl. rewrite Htr.
  split; [done|]. split; [done|].
  rewrite !dispatched_app, !saves_app, !drive_calls_app. cbn.
  rewrite !dispatched_app, !saves_app, !drive_calls_app.
  rewrite dispatched_detached, saves_detached, drive_calls_detached. cbn.
  by rewrite !app_nil_r.
Qed.

(** X2: [create] and then an accepted [delete] of the new article: the article table is
    back to what it was (the drawn identifier being new to it), while
    the Drive requests of [create] stand and [delete] adds none: the
    folder and its documents stay in the Drive. *)
Theorem create_then_delete_restores_table sr :
  saveReplies w = Ok tt :: sr →
  articleTable w !! uuidSource w (uuidDrawn w) = None →
  ∃ w1,
    create E articleDto file w = (Returned a, w1) ∧
    article_id a = Some (uuidSource w (uuidDrawn w)) ∧
    let r := ArticleService.delete (uuidSource w (uuidDrawn w)) w1 in
    r.1 = Returned tt ∧
    articleTable r.2 = articleTable w ∧
    drive_calls (trace r.2)
      = drive_calls (trace w)
          ++ create_drive_requests E articleDto file folder
          ++ map (λ author, shareFile doc "writer" (author_email author))
               (resolved_authors w articleDto).
Proof.
  intros Hsave Hnew.
  destruct (create_success E articleDto file w folder doc grid dr sr
              Hvalid Hdrive Hsave) as (w1 & Hrun & Htab & _ & Htr & _).
  exists w1. split; [exact Hrun|]. split; [done|].
  unfold ArticleService.delete, bind, log_info, modify, articleRepository_delete.
  simpl. split; [done|]. split.
  - rewrite Htab. by apply delete_insert_id.
  - rewrite Htr, <- !app_assoc, !drive_calls_app, drive_calls_detached. simpl.
    by rewrite !app_nil_r.
Qed.

End CreateFurther.

Section CreateFurtherAtSample.
Import ArticleService.

Lemma create_rejects_invalid_witness :
  ∃ e, create Sample.E (Sample.dto [Sample.carolDto; Sample.badDto]) Sample.pdf Sample.w0
         = (Thrown e, Sample.w0) ∧
       (e = Error "" ∨ ∃ errors, errors ≠ [] ∧ e = ValidationErrors errors).
Proof.
  apply (create_rejects_invalid Sample.E (Sample.dto [Sample.carolDto; Sample.badDto])
           Sample.pdf Sample.w0).
  right. left. exists Sample.badDto. split; [|discriminate].
  simpl. right. by left.
Defined.

Lemma create_grants_one_permission_per_author_witness :
  let input := Sample.dto [Sample.daveDto; Sample.carolDto] in
  ∃ w', create Sample.E input Sample.pdf Sample.w0
          = (Returned (created_article Sample.w0 input "folder-9" "doc-9" "grid-9"), w') ∧
        drive_calls (trace w')
          = drive_calls (trace Sample.w0)
              ++ create_drive_requests Sample.E input Sample.pdf "folder-9"
              ++ [shareFile "doc-9" "writer" (Some "dave@example.org");
                  shareFile "doc-9" "writer" (Some "carol@example.org")] ∧
        length (resolved_authors Sample.w0 input) = 2.
Proof.
  apply (create_grants_one_permission_per_author Sample.E
           (Sample.dto [Sample.daveDto; Sample.carolDto]) Sample.pdf Sample.w0
           "folder-9" "doc-9" "grid-9" [] ltac:(sample_input_valid) eq_refl [Ok tt]).
  reflexivity.
Defined.


Lemma create_rejected_save_leaves_documents_witness :
  let input := Sample.dto [Sample.carolDto] in
  let w := set_saveReplies [Failed "deadlock"] Sample.w0 in
  let r := create Sample.E input Sample.pdf w in
  r.1 = Thrown (Rejection "deadlock") ∧
  articleTable r.2 = articleTable w ∧
  dispatched (trace r.2) = dispatched (trace w) ∧
  saves (trace r.2)
    = saves (trace w) ++ [(created_article w input "folder-9" "doc-9" "grid-9", false)] ∧
  drive_calls (trace r.2)
    = drive_calls (trace w)
        ++ create_drive_requests Sample.E input Sample.pdf "folder-9"
        ++ [shareFile "doc-9" "writer" (Some "carol@example.org")].
Proof.
  apply (create_rejected_save_leaves_documents Sample.E (Sample.dto [Sample.carolDto])
           Sample.pdf (set_saveReplies [Failed "deadlock"] Sample.w0)
           "folder-9" "doc-9" "grid-9" [] ltac:(sample_input_valid) eq_refl
           "deadlock" []).
  reflexivity.
Defined.

Lemma create_then_delete_restores_table_witness :
  let input := Sample.dto [Sample.carolDto] in
  ∃ w1,
    create Sample.E input Sample.pdf Sample.w0
      = (Returned (created_article Sample.w0 input "folder-9" "doc-9" "grid-9"), w1) ∧
    article_id (created_article Sample.w0 input "folder-9" "doc-9" "grid-9")
      = Some (Sample.uuids 0) ∧
    let r := ArticleService.delete (Sample.uuids 0) w1 in
    r.1 = Returned tt ∧
    articleTable r.2 = articleTable Sample.w0 ∧
    drive_calls (trace r.2)
      = drive_calls (trace Sample.w0)
          ++ create_drive_requests Sample.E input Sample.pdf "folder-9"
          ++ [shareFile "doc-9" "writer" (Some "carol@example.org")].
Proof.
  apply (create_then_delete_restores_table Sample.E (Sample.dto [Sample.carolDto])
           Sample.pdf Sample.w0 "folder-9" "doc-9" "grid-9" []
           ltac:(sample_input_valid) eq_refl [Ok tt]); reflexivity.
Defined.

End CreateFurtherAtSample.

(** ** Author validation *)

Section AuthorValidation.

Lemma isNotEmpty_true v : isNotEmpty v = true ↔ ∃ s, v = Some s ∧ s ≠ "".
Proof.
  destruct v as [s|]; simpl.
  - rewrite negb_true_iff. split.
    + intros Hneq. exists s. split; [done|]. intros ->. by rewrite String.eqb_refl in Hneq.
    + intros (s' & [= <-] & Hne). by apply String.eqb_neq.
  - split; [done|]. by intros (s & ? & _).
Qed.

Lemma check_IsNotEmpty_nil property v :
  check_IsNotEmpty property v = [] ↔ isNotEmpty v = true.
Proof. unfold check_IsNotEmpty. by destruct (isNotEmpty v). Qed.

(** X19: [validateSync] reports no error for an [AuthorDTO] exactly when
    each of its five properties (name, email, school, biography,
    country) is there and is not the empty string; it never reports
    more than one error per property. *)
Theorem validateSync_accepts_iff (a : AuthorDTO) :
  (validateSync a = [] ↔
     ∀ v, v ∈ [dto_name a; dto_email a; dto_school a; dto_biography a; dto_country a] →
          ∃ s, v = Some s ∧ s ≠ "") ∧
  (length (validateSync a) ≤ 5)%nat.
Proof.
  split.
  - unfold validateSync. rewrite !app_nil, !check_IsNotEmpty_nil.
    setoid_rewrite <- isNotEmpty_true. split.
    + intros (H1 & H2 & H3 & H4 & H5) v Hv.
      repeat (apply elem_of_cons in Hv as [->|Hv]; [done|]).
      by apply elem_of_nil in Hv.
    + intros Hall. repeat split; apply Hall; set_solver.
  - unfold validateSync, check_IsNotEmpty. rewrite !length_app.
    destruct (isNotEmpty (dto_name a)), (isNotEmpty (dto_email a)),
      (isNotEmpty (dto_school a)), (isNotEmpty (dto_biography a)),
      (isNotEmpty (dto_country a)); simpl; lia.
Qed.

End AuthorValidation.

(** ** The legacy editor sheet *)

Section LegacyEditors.

Context {EditorObject : Type} (new_Editor : gmap string string → EditorObject).

Lemma List_filter_ext_elem {A} (p q : A → bool) (l : list A) :
  (∀ x, x ∈ l → p x = q x) → List.filter p l = List.filter q l.
Proof.
  induction l as [|x l IH]; intros Heq; simpl; [done|].
  rewrite (Heq x) by by left. rewrite IH; [done|].
  intros y Hy. apply Heq. by right.
Qed.

Lemma email_among_spec emails (j : gmap string string) :
  Editors.email_among emails j = true ↔ ∃ e, j !! "email" = Some e ∧ e ∈ emails.
Proof.
  unfold Editors.email_among. destruct (j !! "email") as [cell|].
  - rewrite includes_elem_of. split; [intros Hin; by exists cell|].
    by intros (e & [= <-] & Hin).
  - split; [done|]. by intros (e & ? & _).
Qed.

(** X22: [getEditorsByEmails] returns the rows of the sheet whose email cell
    is one of the requested emails, in the order of the sheet.  Which
    rows come back depends only on which emails are requested, not on
    their order or repetition in the request; an empty request returns
    no row. *)
Theorem getEditorsByEmails_spec (data : list (gmap string string)) emails :
  sublist (Editors.getEditorsByEmails data emails) data ∧
  (∀ row, row ∈ Editors.getEditorsByEmails data emails ↔
          row ∈ data ∧ ∃ e, row !! "email" = Some e ∧ e ∈ emails) ∧
  (∀ emails', (∀ e, e ∈ emails ↔ e ∈ emails') →
     Editors.getEditorsByEmails data emails' = Editors.getEditorsByEmails data emails) ∧
  Editors.getEditorsByEmails data [] = [].
Proof.
  unfold Editors.getEditorsByEmails. split; [apply sublist_List_filter|]. split.
  { intros row. by rewrite elem_of_List_filter, email_among_spec. }
  split.
  - intros emails' Hsame. apply List_filter_ext_elem. intros j _.
    apply eq_true_iff_eq. rewrite !email_among_spec.
    by setoid_rewrite Hsame.
  - induction data as [|j data IH]; simpl; [done|].
    unfold Editors.email_among at 1. by destruct (j !! "email").
Qed.

Lemma email_is_among email (e : gmap string string) :
  Editors.email_is email e = Editors.email_among [email] e.
Proof.
  unfold Editors.email_is, Editors.email_among, includes.
  destruct (e !! "email"); simpl; [by rewrite orb_false_r | done].
Qed.

(** X23: [getEditorByEmail] builds its editor from the first row that
    [getEditorsByEmails] returns for that one email, and returns [null]
    exactly when the sheet has no row with that email. *)
Theorem getEditorByEmail_first_row (data : list (gmap string string)) email :
  Editors.getEditorByEmail _ new_Editor data email
    = new_Editor <$> head (Editors.getEditorsByEmails data [email]) ∧
  (Editors.getEditorByEmail _ new_Editor data email = None ↔
     ∀ row, row ∈ data → row !! "email" ≠ Some email).
Proof.
  unfold Editors.getEditorByEmail, Editors.getEditorsByEmails.
  rewrite (List_filter_ext_elem (Editors.email_is email) (Editors.email_among [email]))
    by (intros; apply email_is_among).
  split; [by destruct (List.filter _ data)|].
  destruct (List.filter _ data) as [|row rows] eqn:Hfilter.
  - split; [intros _|done]. intros row Hrow Hemail.
    assert (Hin : row ∈ List.filter (Editors.email_among [email]) data).
    { apply elem_of_List_filter. split; [done|].
      apply email_among_spec. exists email. split; [done|]. by left. }
    rewrite Hfilter in Hin. by apply elem_of_nil in Hin.
  - split; [done|]. intros Hnone. exfalso.
    assert (Hin : row ∈ List.filter (Editors.email_among [email]) data)
      by (rewrite Hfilter; by left).
    apply elem_of_List_filter in Hin as [Hrow Hamong].
    apply email_among_spec in Hamong as (e & He & Hin).
    apply list_elem_of_singleton in Hin as ->. by apply (Hnone row).
Qed.

End LegacyEditors.
